(** * VariantListComponent: faceted filtering, facet counts, visibility
      reconciliation and the HGVS annotation cache

    Shallow embedding of
    [src/app/features/analysis/components/variant-list/variant-list.component.ts].

    Conventions of the embedding.
    - JavaScript strings are [string] (sequences of 8-bit characters);
      [toLowerCase] and [trim] are the ASCII restrictions of the JavaScript
      methods.
    - [position] is an integer ([Z]); [toString] is its decimal rendering.
    - A [Map<string, _>] and a [Record<string, _>] that is only written
      and enumerated are [gmap string _]; a counter object, which is also
      read by key, is the [gmap] of its own properties behind the
      properties it inherits from [Object.prototype].
    - Signals are fields of the [Component] record; a method that writes
      signals returns the updated record.
    - The asynchronous method [fetchHgvsAlternatives] is a command tree
      ([Fetch.Prog]) whose nodes are the signal updates and the calls that
      leave the component. *)

From Stdlib Require Import ZArith List Bool Ascii String Sorted Permutation.
From stdpp Require Import base option list sorting gmap strings pretty.

Local Open Scope string_scope.
Local Open Scope Z_scope.

(** ** JavaScript primitives used by the component *)

Module JS.

(** [String.prototype.toLowerCase], on ASCII letters. *)
Definition lower_ascii (c : ascii) : ascii :=
  let n := nat_of_ascii c in
  if (andb (Nat.leb 65 n) (Nat.leb n 90)) then ascii_of_nat (n + 32) else c.

Fixpoint toLowerCase (s : string) : string :=
  match s with
  | EmptyString => EmptyString
  | String c s' => String (lower_ascii c) (toLowerCase s')
  end.

(** [String.prototype.trim]: white space is removed at both ends. *)
Fixpoint trimStart (s : string) : string :=
  match s with
  | EmptyString => EmptyString
  | String c s' => if Ascii.is_space c then trimStart s' else s
  end.

Definition trimEnd (s : string) : string :=
  String.rev (trimStart (String.rev s)).

Definition trim (s : string) : string := trimEnd (trimStart s).

(** [String.prototype.includes]: [q] occurs in [s] as a substring. *)
Fixpoint includes (s q : string) : bool :=
  String.prefix q s ||
  match s with
  | EmptyString => false
  | String _ s' => includes s' q
  end.

(** [String.prototype.split] with a one-character separator. *)
Fixpoint split (sep : ascii) (s : string) : list string :=
  match s with
  | EmptyString => [EmptyString]
  | String c s' =>
      if Ascii.eqb c sep then EmptyString :: split sep s'
      else match split sep s' with
           | h :: t => String c h :: t
           | [] => [String c EmptyString]
           end
  end.

(** [Number.prototype.toString] on an integer, also what a template
    literal renders. *)
Definition toString (z : Z) : string := pretty z.

(** Truthiness of an optional string: [undefined] and [''] are falsy. *)
Definition truthy (o : option string) : bool :=
  match o with
  | Some s => negb (String.eqb s EmptyString)
  | None => false
  end.

(** [a ?? b] where [a] is possibly [undefined]. *)
Definition nullish {A} (a : option A) (b : A) : A :=
  match a with Some x => x | None => b end.

(** [Set.prototype.add]: a set keeps insertion order and ignores an
    element that it already holds. *)
Definition set_add (acc : list string) (x : string) : list string :=
  if bool_decide (x ∈ acc) then acc else acc ++ [x].

(** [Array.from(set)]. *)
Definition set_of_list (l : list string) : list string :=
  fold_left set_add l [].

(** [Array.prototype.sort()] without a comparator: ascending in the
    order of the code units. *)
Definition sort (l : list string) : list string := merge_sort String.le l.

(** [Array.prototype.some]. *)
Definition some {A} (f : A → bool) (l : list A) : bool := existsb f l.

(** [Array.prototype.includes] on an array of strings. *)
Definition array_includes (l : list string) (x : string) : bool :=
  existsb (String.eqb x) l.

End JS.

(** ** Data model *)

(** The [hgvs] property of a record: absent, one string, or an array. *)
Inductive HgvsField : Type :=
| HgvsAbsent
| HgvsString (s : string)
| HgvsArray (l : list string).

(** [Variant] of [core/models/analysis.model]; the fields are the ones the
    component reads. *)
#[warnings="-register-all"]
Inductive Variant : Type :=
  mkVariant {
    v_position : Z;
    v_ref : string;
    v_alt : string;
    v_type : string;
    v_patient : string;
    v_filter : option string;
    v_consequence : option string;
    v_hgvs : HgvsField;
    v_polymorphism : option (list Variant)
  }.

(** An entry of [hgvsStates]. *)
Record HgvsState : Type :=
  mkHgvsState {
    loading : bool;
    error : bool;
    alternatives : list string
  }.

(** The signals and inputs of the component. *)
Record Component : Type :=
  mkComponent {
    variants : list Variant;
    jobId : option string;
    hgvsAlternatives : gmap string (list string);
    searchTerm : string;
    filterType : string;
    filterPatient : string;
    filterConsequence : string;
    filterQuality : string;
    hgvsStates : gmap string HgvsState
  }.

(** The [overrides] argument of [applyFilters]. *)
Record Overrides : Type :=
  mkOverrides {
    o_type : option string;
    o_patient : option string;
    o_quality : option string;
    o_consequence : option string
  }.

Definition no_overrides : Overrides := mkOverrides None None None None.

(** ** HGVS resolution *)

Definition getHgvsKey (v : Variant) : string :=
  match v_hgvs v with
  | HgvsArray (h :: _) => h
  | HgvsString s =>
      if negb (String.eqb s "") && negb (String.eqb (JS.trim s) "")
      then s else JS.toString (v_position v)
  | _ => JS.toString (v_position v)
  end.

(** The part of [getHgvs] below the cache lookup: the raw field as an
    array. *)
Definition rawHgvs (v : Variant) : list string :=
  match v_hgvs v with
  | HgvsAbsent => []
  | HgvsString s => if String.eqb s "" then [] else [s]
  | HgvsArray l => l
  end.

Definition getHgvs (c : Component) (v : Variant) : list string :=
  let key := getHgvsKey v in
  match hgvsStates c !! key with
  | Some state =>
      if (0 <? length (alternatives state))%nat then alternatives state
      else rawHgvs v
  | None => rawHgvs v
  end.

Definition getHgvsState (c : Component) (v : Variant) : option HgvsState :=
  hgvsStates c !! getHgvsKey v.

Definition getVariantName (c : Component) (v : Variant) : string :=
  match getHgvs c v with
  | h :: _ => h
  | [] => v_ref v +:+ JS.toString (v_position v) +:+ v_alt v
  end.

(** ** Involved patients *)

Definition companionPatients (v : Variant) : list string :=
  match v_polymorphism v with
  | Some ps => map v_patient ps
  | None => []
  end.

Definition getInvolvedPatients (v : Variant) : list string :=
  JS.sort (JS.set_of_list (v_patient v :: companionPatients v)).

(** ** Signal writers *)

Definition updateSearchTerm (term : string) (c : Component) : Component :=
  mkComponent (variants c) (jobId c) (hgvsAlternatives c) term (filterType c)
    (filterPatient c) (filterConsequence c) (filterQuality c) (hgvsStates c).

Definition setFilter (type : string) (c : Component) : Component :=
  mkComponent (variants c) (jobId c) (hgvsAlternatives c) (searchTerm c) type
    (filterPatient c) (filterConsequence c) (filterQuality c) (hgvsStates c).

Definition setPatientFilter (patient : string) (c : Component) : Component :=
  mkComponent (variants c) (jobId c) (hgvsAlternatives c) (searchTerm c)
    (filterType c) patient (filterConsequence c) (filterQuality c)
    (hgvsStates c).

Definition setConsequenceFilter (consequence : string) (c : Component)
  : Component :=
  mkComponent (variants c) (jobId c) (hgvsAlternatives c) (searchTerm c)
    (filterType c) (filterPatient c) consequence (filterQuality c)
    (hgvsStates c).

Definition setQualityFilter (quality : string) (c : Component) : Component :=
  mkComponent (variants c) (jobId c) (hgvsAlternatives c) (searchTerm c)
    (filterType c) (filterPatient c) (filterConsequence c) quality
    (hgvsStates c).

(** [this.hgvsStates.set(m)]. *)
Definition setHgvsStates (m : gmap string HgvsState) (c : Component)
  : Component :=
  mkComponent (variants c) (jobId c) (hgvsAlternatives c) (searchTerm c)
    (filterType c) (filterPatient c) (filterConsequence c) (filterQuality c) m.

(** ** The filter engine *)

(** Callback of the quality stage. *)
Definition qualityStage (qualityFilter : string) (v : Variant) : bool :=
  if negb (JS.truthy (v_filter v)) then true
  else match v_filter v with
       | Some f => String.eqb f qualityFilter
       | None => false
       end.

(** Callback of the type stage; [typeFilter] is already in lower case. *)
Definition typeStage (typeFilter : string) (v : Variant) : bool :=
  String.eqb (JS.toLowerCase (v_type v)) typeFilter.

(** Callback of the patient stage. *)
Definition patientStage (patientFilter : string) (v : Variant) : bool :=
  if String.eqb (v_patient v) patientFilter then true
  else match v_polymorphism v with
       | Some ps => JS.some (fun p => String.eqb (v_patient p) patientFilter) ps
       | None => false
       end.

(** Callback of the consequence stage: [v['consequence'] === filter]. *)
Definition consequenceStage (consequenceFilter : string) (v : Variant) : bool :=
  match v_consequence v with
  | Some x => String.eqb x consequenceFilter
  | None => false
  end.

(** Callback of the search stage; [ensureVariantVisible] evaluates the same
    expression on its argument. *)
Definition searchMatches (c : Component) (search : string) (v : Variant)
  : bool :=
  let mutation :=
    JS.toLowerCase (v_ref v +:+ JS.toString (v_position v) +:+ v_alt v) in
  let posStr := JS.toString (v_position v) in
  let involvedPatients := map JS.toLowerCase (getInvolvedPatients v) in
  let hgvs := map JS.toLowerCase (getHgvs c v) in
  JS.includes mutation search ||
  JS.includes posStr search ||
  JS.some (fun p => JS.includes p search) involvedPatients ||
  JS.some (fun h => JS.includes h search) hgvs.

Definition applyFilters (c : Component) (overrides : Overrides)
  : list Variant :=
  let list := variants c in
  let search := JS.trim (JS.toLowerCase (searchTerm c)) in
  let typeFilter :=
    JS.toLowerCase (JS.nullish (o_type overrides) (filterType c)) in
  let patientFilter := JS.nullish (o_patient overrides) (filterPatient c) in
  let qualityFilter := JS.nullish (o_quality overrides) (filterQuality c) in
  let consequenceFilter :=
    JS.nullish (o_consequence overrides) (filterConsequence c) in
  let list :=
    if negb (String.eqb qualityFilter "All")
    then List.filter (qualityStage qualityFilter) list else list in
  let list :=
    if negb (String.eqb typeFilter "all")
    then List.filter (typeStage typeFilter) list else list in
  let list :=
    if negb (String.eqb patientFilter "All")
    then List.filter (patientStage patientFilter) list else list in
  let list :=
    if negb (String.eqb consequenceFilter "All")
    then List.filter (consequenceStage consequenceFilter) list else list in
  let list :=
    if negb (String.eqb search "")
    then List.filter (searchMatches c search) list else list in
  list.

Definition filteredVariants (c : Component) : list Variant :=
  applyFilters c no_overrides.

Definition totalCount (c : Component) : nat := length (filteredVariants c).

(** ** Facet values *)

Definition availableTypes (c : Component) : list string :=
  JS.sort (JS.set_of_list (map v_type (variants c))).

Definition availableQualities (c : Component) : list string :=
  JS.sort (JS.set_of_list
    (flat_map (fun v => if JS.truthy (v_filter v)
                        then option_list (v_filter v) else [])
       (variants c))).

(** ** Facet counts *)

(** A counter is a plain object [{}], modelled by its own properties. A
    value stored in it is a number, or the string that [+ 1] makes of what
    is no number: the string conversion of an inherited value, followed by
    a suffix. *)
Inductive TextOrigin : Type :=
| OfFunction (name : string)
| OfPrototype.

Inductive CountValue : Type :=
| CountNumber (n : nat)
| CountText (origin : TextOrigin) (suffix : string).

(** The function-valued properties that every object inherits from
    [Object.prototype]; [__proto__] is the accessor of the prototype. *)
Definition prototypeFunctions : list string :=
  ["constructor"; "__defineGetter__"; "__defineSetter__"; "hasOwnProperty";
   "__lookupGetter__"; "__lookupSetter__"; "isPrototypeOf";
   "propertyIsEnumerable"; "toString"; "valueOf"; "toLocaleString"].

(** What [counts[k]] evaluates to. *)
Inductive PropRead : Type :=
| ReadOwn (v : CountValue)
| ReadFunction (name : string)
| ReadPrototype
| ReadUndefined.

Definition getProp (counts : gmap string CountValue) (k : string)
  : PropRead :=
  if String.eqb k "__proto__" then ReadPrototype
  else match counts !! k with
       | Some v => ReadOwn v
       | None =>
           if JS.array_includes prototypeFunctions k
           then ReadFunction k else ReadUndefined
       end.

(** [(x ?? 0) + 1]: addition on numbers, concatenation otherwise. *)
Definition plusOne (x : PropRead) : CountValue :=
  match x with
  | ReadOwn (CountNumber n) => CountNumber (n + 1)
  | ReadOwn (CountText origin suffix) => CountText origin (suffix +:+ "1")
  | ReadFunction name => CountText (OfFunction name) "1"
  | ReadPrototype => CountText OfPrototype "1"
  | ReadUndefined => CountNumber (0 + 1)
  end.

(** [counts[k] = v] for a number or a string [v]: the setter of
    [__proto__] ignores such a value, any other key becomes or stays an
    own property. *)
Definition setProp (counts : gmap string CountValue) (k : string)
    (v : CountValue) : gmap string CountValue :=
  if String.eqb k "__proto__" then counts else <[k := v]> counts.

(** [counts[k] = (counts[k] ?? 0) + 1]. *)
Definition increment (counts : gmap string CountValue) (k : string)
  : gmap string CountValue :=
  setProp counts k (plusOne (getProp counts k)).

Definition typeCounts (c : Component) : gmap string CountValue :=
  let baseFiltered := applyFilters c (mkOverrides (Some "All") None None None) in
  let counts :=
    fold_left (fun counts v => increment counts (v_type v)) baseFiltered ∅ in
  setProp counts "All" (CountNumber (length baseFiltered)).

Definition qualityCounts (c : Component) : gmap string CountValue :=
  let baseFiltered := applyFilters c (mkOverrides None None (Some "All") None) in
  let counts :=
    fold_left (fun counts v =>
                 let q := if JS.truthy (v_filter v)
                          then default "N/A" (v_filter v) else "N/A" in
                 increment counts q)
      baseFiltered ∅ in
  setProp counts "All" (CountNumber (length baseFiltered)).

Definition patientCounts (c : Component) : gmap string CountValue :=
  let baseFiltered := applyFilters c (mkOverrides None (Some "All") None None) in
  let counts :=
    fold_left (fun counts v =>
                 let patients := getInvolvedPatients v in
                 fold_left increment patients counts)
      baseFiltered ∅ in
  setProp counts "All" (CountNumber (length baseFiltered)).

Definition consequenceCounts (c : Component) : gmap string CountValue :=
  let baseFiltered := applyFilters c (mkOverrides None None None (Some "All")) in
  let counts :=
    fold_left (fun counts v =>
                 if JS.truthy (v_consequence v)
                 then increment counts (default "" (v_consequence v))
                 else counts)
      baseFiltered ∅ in
  setProp counts "All" (CountNumber (length baseFiltered)).

(** ** Visibility reconciliation *)

Definition ensureVariantVisible (c : Component) (v : Variant)
  : Component * bool :=
  let needsUpdate := false in
  let search := JS.trim (JS.toLowerCase (searchTerm c)) in
  let '(c, needsUpdate) :=
    if negb (String.eqb search "") then
      let matchesSearch := searchMatches c search v in
      if negb matchesSearch
      then (updateSearchTerm "" c, true)
      else (c, needsUpdate)
    else (c, needsUpdate) in
  let '(c, needsUpdate) :=
    if negb (String.eqb (filterType c) "All") &&
       negb (String.eqb (JS.toLowerCase (filterType c))
                        (JS.toLowerCase (v_type v)))
    then (setFilter "All" c, true)
    else (c, needsUpdate) in
  let '(c, needsUpdate) :=
    if negb (String.eqb (filterPatient c) "All") then
      let patients := getInvolvedPatients v in
      if negb (JS.array_includes patients (filterPatient c))
      then (setPatientFilter "All" c, true)
      else (c, needsUpdate)
    else (c, needsUpdate) in
  let '(c, needsUpdate) :=
    if negb (String.eqb (filterQuality c) "All") then
      if JS.truthy (v_filter v) &&
         negb (String.eqb (default "" (v_filter v)) (filterQuality c))
      then (setQualityFilter "All" c, true)
      else (c, needsUpdate)
    else (c, needsUpdate) in
  let '(c, needsUpdate) :=
    if negb (String.eqb (filterConsequence c) "All") &&
       negb (consequenceStage (filterConsequence c) v)
    then (setConsequenceFilter "All" c, true)
    else (c, needsUpdate) in
  (c, needsUpdate).

(** ** The seeding effect of the constructor *)

Definition effect_body (c : Component) : Component :=
  let initialMap :=
    fold_left (fun m '(key, alts) => <[key := mkHgvsState false false alts]> m)
      (map_to_list (hgvsAlternatives c)) (∅ : gmap string HgvsState) in
  let c := setHgvsStates initialMap c in
  let qualities := availableQualities c in
  if JS.array_includes qualities "PASS"
  then setQualityFilter "PASS" c
  else setQualityFilter "All" c.

(** ** The annotation fetch *)

Module Fetch.

(** Commands of an asynchronous method of the component. [Read] reads the
    signals at the moment it runs, [UpdateStates] is [hgvsStates.update],
    and an [Await] node suspends the method until the call to the analysis
    service settles; [None] and [false] stand for a rejected promise. *)
Inductive Prog : Type :=
| Done
| Read (k : Component → Prog)
| UpdateStates (f : gmap string HgvsState → gmap string HgvsState) (k : Prog)
| Toast (message kind : string) (k : Prog)
| ConsoleError (k : Prog)
| AwaitLookup (transcript : string) (position : Z) (ref alt : string)
    (k : option (list string) → Prog)
| AwaitPersist (jId primary : string) (alts : list string) (k : bool → Prog).

(** [prev => { const next = new Map(prev); next.set(key, st); return next }]. *)
Definition setEntry (key : string) (st : HgvsState)
    (prev : gmap string HgvsState) : gmap string HgvsState :=
  <[key := st]> prev.

(** The [catch] block. *)
Definition onError (key : string) : Prog :=
  ConsoleError (UpdateStates (setEntry key (mkHgvsState false true [])) Done).

(** The body of [fetchHgvsAlternatives], [c] being the signals as the
    method finds them when it is called. *)
Definition fetchFrom (v : Variant) (c : Component) : Prog :=
  let key := getHgvsKey v in
  let currentHgvs := getHgvs c v in
  if (1 <? length currentHgvs)%nat then Done
  else
    match currentHgvs with
    | [] => Done
    | primary :: _ =>
        let parts := JS.split ":" primary in
        if (length parts <? 2)%nat then Done
        else
          let transcript := hd "" parts in
          UpdateStates (setEntry key (mkHgvsState true false []))
            (AwaitLookup transcript (v_position v) (v_ref v) (v_alt v)
               (λ r,
                  match r with
                  | Some alternatives =>
                      UpdateStates
                        (setEntry key (mkHgvsState false false alternatives))
                        (Toast "Alternatives received" "success"
                           (Read (λ c',
                              if JS.truthy (jobId c')
                              then
                                AwaitPersist (default "" (jobId c')) primary
                                  alternatives
                                  (λ ok, if ok then Done else onError key)
                              else Done)))
                  | None => onError key
                  end))
    end.

Definition fetchHgvsAlternatives (v : Variant) : Prog := Read (fetchFrom v).

(** What an observer of the component sees. *)
Inductive Event : Type :=
| EvStates (m : gmap string HgvsState)
| EvToast (message kind : string)
| EvConsoleError
| EvLookup (transcript : string) (position : Z) (ref alt : string)
| EvPersist (jId primary : string) (alts : list string).

(** A suspended method: the call it waits for and its continuation. *)
Inductive Pending : Type :=
| PendingLookup (transcript : string) (position : Z) (ref alt : string)
    (k : option (list string) → Prog)
| PendingPersist (jId primary : string) (alts : list string)
    (k : bool → Prog).

(** Runs a method up to its next suspension point. *)
Fixpoint runSync (p : Prog) (c : Component)
  : Component * list Event * option Pending :=
  match p with
  | Done => (c, [], None)
  | Read k => runSync (k c) c
  | UpdateStates f k =>
      let m := f (hgvsStates c) in
      let '(c', evs, s) := runSync k (setHgvsStates m c) in
      (c', EvStates m :: evs, s)
  | Toast message kind k =>
      let '(c', evs, s) := runSync k c in (c', EvToast message kind :: evs, s)
  | ConsoleError k =>
      let '(c', evs, s) := runSync k c in (c', EvConsoleError :: evs, s)
  | AwaitLookup t pos r a k =>
      (c, [EvLookup t pos r a], Some (PendingLookup t pos r a k))
  | AwaitPersist j pr al k =>
      (c, [EvPersist j pr al], Some (PendingPersist j pr al k))
  end.

(** The analysis service, as the outcome of each call. *)
Record Service : Type :=
  mkService {
    getHgvsAlternatives : string → Z → string → string → option (list string);
    addJobHgvsAlternatives : string → string → list string → bool
  }.

(** Runs a method to its end against a service, nothing else touching the
    component in between. *)
Fixpoint run (svc : Service) (p : Prog) (c : Component)
  : Component * list Event :=
  match p with
  | Done => (c, [])
  | Read k => run svc (k c) c
  | UpdateStates f k =>
      let m := f (hgvsStates c) in
      let '(c', evs) := run svc k (setHgvsStates m c) in
      (c', EvStates m :: evs)
  | Toast message kind k =>
      let '(c', evs) := run svc k c in (c', EvToast message kind :: evs)
  | ConsoleError k =>
      let '(c', evs) := run svc k c in (c', EvConsoleError :: evs)
  | AwaitLookup t pos r a k =>
      let '(c', evs) := run svc (k (getHgvsAlternatives svc t pos r a)) c in
      (c', EvLookup t pos r a :: evs)
  | AwaitPersist j pr al k =>
      let '(c', evs) := run svc (k (addJobHgvsAlternatives svc j pr al)) c in
      (c', EvPersist j pr al :: evs)
  end.

End Fetch.

(** ** Remaining facet values *)

Definition availableConsequences (c : Component) : list string :=
  JS.sort (JS.set_of_list
    (flat_map (fun v => if JS.truthy (v_consequence v)
                        then option_list (v_consequence v) else [])
       (variants c))).

Definition availablePatients (c : Component) : list string :=
  JS.sort (JS.set_of_list
    (flat_map (fun v => v_patient v :: companionPatients v) (variants c))).

(** ** Click handlers of the pills *)

Definition onPillClick (type : string) (c : Component) : Component :=
  setFilter type c.

(** [this.setQualityFilter(quality || 'All')]. *)
Definition onQualityClick (quality : option string) (c : Component)
  : Component :=
  setQualityFilter (if JS.truthy quality then default "" quality else "All") c.

Definition onPatientClick (patient : string) (c : Component) : Component :=
  setPatientFilter patient c.

Definition onConsequenceClick (consequence : string) (c : Component)
  : Component :=
  setConsequenceFilter consequence c.

(** ** Comments *)

(** The signals [expandedComments] and [newCommentText]. *)
Record CommentUi : Type :=
  mkCommentUi {
    expandedComments : gset string;
    newCommentText : gmap string string
  }.

Definition getCommentKey (v : Variant) : string := JS.toString (v_position v).

Definition toggleComments (variantKey : string) (ui : CommentUi) : CommentUi :=
  let prev := expandedComments ui in
  let next :=
    if bool_decide (variantKey ∈ prev)
    then prev ∖ {[variantKey]}
    else prev ∪ {[variantKey]} in
  mkCommentUi next (newCommentText ui).

(** [prev => ({ ...prev, [variantKey]: text })]. *)
Definition updateNewCommentText (variantKey text : string) (ui : CommentUi)
  : CommentUi :=
  mkCommentUi (expandedComments ui) (<[variantKey := text]> (newCommentText ui)).

(** The second component is the [commentAdded] event, if one is emitted. *)
Definition submitComment (variantKey : string) (ui : CommentUi)
  : CommentUi * option (string * string) :=
  let text := newCommentText ui !! variantKey in
  if JS.truthy text && negb (String.eqb (JS.trim (default "" text)) "")
  then (updateNewCommentText variantKey "" ui,
        Some (variantKey, JS.trim (default "" text)))
  else (ui, None).

(** * Specification vocabulary *)

(** ** Strings *)

Section strings_vocabulary.

(** [occurs q s]: [q] is a substring of [s]. *)
Definition occurs (q s : string) : Prop :=
  ∃ pre post : string, s = pre +:+ q +:+ post.

(** A blank string: every character is white space. *)
Fixpoint blank (s : string) : bool :=
  match s with
  | EmptyString => true
  | String c s' => Ascii.is_space c && blank s'
  end.

End strings_vocabulary.

(** ** The filter engine as one predicate *)

Section filter_engine_vocabulary.

Implicit Types (c : Component) (o : Overrides) (v : Variant).

(** The selections [applyFilters] works with. *)
Definition effSearch c : string := JS.trim (JS.toLowerCase (searchTerm c)).
Definition effType c o : string := JS.nullish (o_type o) (filterType c).
Definition effPatient c o : string :=
  JS.nullish (o_patient o) (filterPatient c).
Definition effQuality c o : string :=
  JS.nullish (o_quality o) (filterQuality c).
Definition effConsequence c o : string :=
  JS.nullish (o_consequence o) (filterConsequence c).

Definition qualityKeeps c o v : bool :=
  String.eqb (effQuality c o) "All" || qualityStage (effQuality c o) v.
Definition typeKeeps c o v : bool :=
  String.eqb (JS.toLowerCase (effType c o)) "all" ||
  typeStage (JS.toLowerCase (effType c o)) v.
Definition patientKeeps c o v : bool :=
  String.eqb (effPatient c o) "All" || patientStage (effPatient c o) v.
Definition consequenceKeeps c o v : bool :=
  String.eqb (effConsequence c o) "All" ||
  consequenceStage (effConsequence c o) v.
Definition searchKeeps c v : bool :=
  String.eqb (effSearch c) "" || searchMatches c (effSearch c) v.

Definition facetsKeep c o v : bool :=
  qualityKeeps c o v && typeKeeps c o v && patientKeeps c o v &&
  consequenceKeeps c o v.

Definition keeps c o v : bool := facetsKeep c o v && searchKeeps c v.

End filter_engine_vocabulary.

(** ** Involved patients *)

Section involved_patients_vocabulary.

Implicit Types (v : Variant) (p : string).

(** [p] is the record's own patient or the patient of a companion. *)
Definition involved v p : Prop :=
  p = v_patient v ∨
  ∃ ps q, v_polymorphism v = Some ps ∧ q ∈ ps ∧ p = v_patient q.

(** Strict order of the code units. *)
Definition str_lt (a b : string) : Prop := String.le a b ∧ a ≠ b.

End involved_patients_vocabulary.

(** ** Facet counts *)

Section facet_counts_vocabulary.

Local Open Scope nat_scope.
Implicit Types (m : gmap string CountValue) (k : string) (ks : list string).
Implicit Types (c : Component) (v : Variant).

(** [k] is a property name of [Object.prototype]. *)
Definition prototypeKey k : bool :=
  String.eqb k "__proto__" || JS.array_includes prototypeFunctions k.

(** [k] is neither the pseudo-value 'All' nor a property name of
    [Object.prototype]. *)
Definition ordinaryKey k : bool :=
  negb (String.eqb k "All") && negb (prototypeKey k).

(** Adding a stored value to a sum, which exists as long as every value
    is a number. *)
Definition addCount (x : CountValue) (acc : option nat) : option nat :=
  match x, acc with
  | CountNumber n, Some a => Some (n + a)
  | _, _ => None
  end.

(** Sum of all the counts of a counter. *)
Definition sumCounts m : option nat :=
  map_fold (λ _ x acc, addCount x acc) (Some 0) m.

(** Sum of the counts of the concrete facet values: every key but the
    pseudo-value 'All'. *)
Definition sumConcrete m : option nat := sumCounts (delete "All" m).

(** Number of occurrences of [k] in a list of keys. *)
Definition occurrences k ks : nat := length (List.filter (String.eqb k) ks).

(** The string of [n] characters '1'. *)
Fixpoint ones (n : nat) : string :=
  match n with
  | 0 => ""
  | S n' => ones n' +:+ "1"
  end.

(** The entry of a number of records: none for zero. *)
Definition countEntry (n : nat) : option CountValue :=
  match n with
  | 0 => None
  | S _ => Some (CountNumber n)
  end.

(** The entry of the key [k] in a counter that started empty and has
    incremented [k] [n] times: the number [n] for an ordinary key, the
    text of the inherited function followed by [n] characters '1' for the
    name of such a function, and no entry for [__proto__]. *)
Definition entryAfter k (n : nat) : option CountValue :=
  match n with
  | 0 => None
  | S _ =>
      if String.eqb k "__proto__" then None
      else if JS.array_includes prototypeFunctions k
           then Some (CountText (OfFunction k) (ones n))
           else Some (CountNumber n)
  end.

(** The mapping built by a counter: one increment per key, then the
    'All' entry. *)
Definition countsOf (keys : list string) (total : nat)
  : gmap string CountValue :=
  setProp (fold_left increment keys ∅) "All" (CountNumber total).

(** The base lists of the four counters. *)
Definition typeBase c : list Variant :=
  applyFilters c (mkOverrides (Some "All") None None None).
Definition qualityBase c : list Variant :=
  applyFilters c (mkOverrides None None (Some "All") None).
Definition patientBase c : list Variant :=
  applyFilters c (mkOverrides None (Some "All") None None).
Definition consequenceBase c : list Variant :=
  applyFilters c (mkOverrides None None None (Some "All")).

(** The keys that one record increments in each counter. *)
Definition typeKeys v : list string := [v_type v].
Definition qualityKeys v : list string :=
  [if JS.truthy (v_filter v) then default "N/A" (v_filter v) else "N/A"].
Definition consequenceKeys v : list string :=
  if JS.truthy (v_consequence v) then [default "" (v_consequence v)] else [].

End facet_counts_vocabulary.

(** ** Concrete records used in the examples *)

Module Samples.

Definition mk (position : Z) (type patient : string)
    (flt cons : option string) (hgvs : HgvsField)
    (poly : option (list Variant)) : Variant :=
  mkVariant position "A" "G" type patient flt cons hgvs poly.

(** The two records of the quality scenario. *)
Definition v100 : Variant :=
  mk 100 "SNV" "P1" (Some "PASS") None HgvsAbsent None.
Definition v200 : Variant :=
  mk 200 "Indel" "P2" (Some "LOW") None HgvsAbsent None.

(** A record of patient P1 that was also seen in P2 (twice) and P1. *)
Definition v300 : Variant :=
  mk 300 "SNV" "P1" None (Some "missense_variant")
     (HgvsString "NM_000546.6:c.215C>G")
     (Some [mk 300 "SNV" "P2" None None HgvsAbsent None;
            mk 300 "SNV" "P2" None None HgvsAbsent None;
            mk 300 "SNV" "P1" None None HgvsAbsent None]).

(** A record whose quality flag is the empty string. *)
Definition v400 : Variant :=
  mk 400 "SNV" "P1" (Some "") None HgvsAbsent None.

(** A record whose type is spelled 'all'. *)
Definition v500 : Variant :=
  mk 500 "all" "P1" (Some "PASS") None HgvsAbsent None.

(** A component with every selection neutral. *)
Definition neutral (vs : list Variant) : Component :=
  mkComponent vs None ∅ "" "All" "All" "All" "All" ∅.

End Samples.

(** ** Quality and search stages *)

(** A record without [hgvs] field and an alternative cached under the
    decimal rendering of its position. *)
Definition cachedSearch : Component :=
  mkComponent [Samples.v100; Samples.v200] None ∅ " hgvs:NM_001 "
    "All" "All" "All" "All"
    {[ "100" := mkHgvsState false false ["HGVS:NM_001.3:c.5A>T"] ]}.

(** ** The annotation key *)

Section annotation_key_vocabulary.

Implicit Types (c : Component) (v : Variant).

(** First entry of a sequence of names, else the decimal position. *)
Definition primaryOr (l : list string) (z : Z) : string :=
  match l with
  | h :: _ => h
  | [] => JS.toString z
  end.

(** The [hgvs] field is a non-empty string of white space only. *)
Definition blankHgvsString v : bool :=
  match v_hgvs v with
  | HgvsString s => negb (String.eqb s "") && blank s
  | _ => false
  end.

End annotation_key_vocabulary.

(** A cache that holds, under the raw name of [v300], alternatives whose
    first entry is another name; and a record whose raw name is that other
    name. *)
Definition cachedAlternatives : Component :=
  mkComponent [Samples.v300] None ∅ "" "All" "All" "All" "All"
    {[ "NM_000546.6:c.215C>G" :=
         mkHgvsState false false
           ["ENST00000269305.9:c.215C>G"; "NM_000546.6:c.215C>G"] ]}.

Definition v300_ensembl : Variant :=
  Samples.mk 300 "SNV" "P3" None None
    (HgvsString "ENST00000269305.9:c.215C>G") None.

(** ** Visibility reconciliation *)

Section reconciler_vocabulary.

Implicit Types (c : Component) (v : Variant).

(** The reset tests of [ensureVariantVisible], one per dimension. *)
Definition resetsSearch c v : bool := negb (searchKeeps c v).
Definition resetsType c v : bool :=
  negb (String.eqb (filterType c) "All") &&
  negb (String.eqb (JS.toLowerCase (filterType c))
                   (JS.toLowerCase (v_type v))).
Definition resetsPatient c v : bool := negb (patientKeeps c no_overrides v).
Definition resetsQuality c v : bool := negb (qualityKeeps c no_overrides v).
Definition resetsConsequence c v : bool :=
  negb (consequenceKeeps c no_overrides v).

End reconciler_vocabulary.

(** A type selection spelled 'all', as [setFilter] stores it on a click on
    the type pill of [v500]. *)
Definition lowercaseAll : Component :=
  setFilter "all" (Samples.neutral [Samples.v100; Samples.v500]).

(** ** The annotation fetch *)

(** *** Splitting at the colon *)

Section split_colon_vocabulary.

Implicit Types (sep : ascii) (s : string).

(** [sep] is one of the characters of [s]. *)
Fixpoint hasChar sep s : bool :=
  match s with
  | EmptyString => false
  | String c s' => Ascii.eqb c sep || hasChar sep s'
  end.

End split_colon_vocabulary.

(** *** The synchronous part of a fetch *)

Section fetch_vocabulary.

Import Fetch.
Implicit Types (c : Component) (v : Variant) (svc : Service).

(** The three entries a fetch writes. *)
Definition pendingState : HgvsState := mkHgvsState true false [].
Definition successState (alts : list string) : HgvsState :=
  mkHgvsState false false alts.
Definition errorState : HgvsState := mkHgvsState false true [].

(** The fetch returns at once: more than one resolved name, none, or a
    primary name without colon. *)
Definition fetchSkipped c v : Prop :=
  (1 < length (getHgvs c v))%nat ∨ getHgvs c v = [] ∨
  ∃ primary, head (getHgvs c v) = Some primary ∧ ¬ occurs ":" primary.

(** The continuation of a fetch after the lookup has settled. *)
Definition afterLookup (key primary : string) (r : option (list string))
  : Prog :=
  match r with
  | Some alternatives =>
      UpdateStates (setEntry key (successState alternatives))
        (Toast "Alternatives received" "success"
           (Read (λ c',
              if JS.truthy (jobId c')
              then
                AwaitPersist (default "" (jobId c')) primary alternatives
                  (λ ok, if ok then Done else onError key)
              else Done)))
  | None => onError key
  end.

(** A service whose lookup succeeds and whose save-back fails, and a view
    of a job. *)
Definition saveFails : Service :=
  mkService
    (λ _ _ _ _, Some ["ENST00000269305.9:c.215C>G"; "NM_000546.6:c.215C>G"])
    (λ _ _ _, false).

Definition jobView : Component :=
  mkComponent [Samples.v300] (Some "job-1") ∅ "" "All" "All" "All" "All" ∅.

End fetch_vocabulary.

(** ** A session of the view *)

Section session_vocabulary.

Import Fetch.
Implicit Types (c : Component) (v : Variant) (key k : string).

(** New values of the [variants] and [hgvsAlternatives] inputs. *)
Definition setInputs (vs : list Variant) (alts : gmap string (list string))
    c : Component :=
  mkComponent vs (jobId c) alts (searchTerm c) (filterType c)
    (filterPatient c) (filterConsequence c) (filterQuality c) (hgvsStates c).

(** A new value of the [jobId] input. *)
Definition setJobId (j : option string) c : Component :=
  mkComponent (variants c) j (hgvsAlternatives c) (searchTerm c)
    (filterType c) (filterPatient c) (filterConsequence c) (filterQuality c)
    (hgvsStates c).

(** A fetch in flight: the record it was called for and the suspended
    method. *)
Record InFlight : Type :=
  mkInFlight {
    inflVariant : Variant;
    inflPending : Pending
  }.

(** The component and the fetches that wait for the analysis service. *)
Record Session : Type :=
  mkSession {
    comp : Component;
    inflight : list InFlight
  }.

(** What can happen to the view. [ActInputs] is a change of the inputs that
    the constructor effect reads, upon which the effect runs again. *)
Inductive Action : Type :=
| ActInputs (vs : list Variant) (alts : gmap string (list string))
| ActJobId (j : option string)
| ActUpdateSearchTerm (term : string)
| ActSetFilter (type : string)
| ActSetPatientFilter (patient : string)
| ActSetConsequenceFilter (consequence : string)
| ActSetQualityFilter (quality : string)
| ActEnsureVisible (v : Variant)
| ActFetch (v : Variant)
| ActLookupSettled (i : nat) (r : option (list string))
| ActPersistSettled (i : nat) (ok : bool).

(** The session after a method called for [v] has run up to its next
    suspension. *)
Definition suspended v (r : Component * list Event * option Pending)
    (others : list InFlight) : Session :=
  match r with
  | (c, _, Some p) => mkSession c (others ++ [mkInFlight v p])
  | (c, _, None) => mkSession c others
  end.

Definition step (a : Action) (s : Session) : Session :=
  match a with
  | ActInputs vs alts =>
      mkSession (effect_body (setInputs vs alts (comp s))) (inflight s)
  | ActJobId j => mkSession (setJobId j (comp s)) (inflight s)
  | ActUpdateSearchTerm term =>
      mkSession (updateSearchTerm term (comp s)) (inflight s)
  | ActSetFilter type => mkSession (setFilter type (comp s)) (inflight s)
  | ActSetPatientFilter patient =>
      mkSession (setPatientFilter patient (comp s)) (inflight s)
  | ActSetConsequenceFilter consequence =>
      mkSession (setConsequenceFilter consequence (comp s)) (inflight s)
  | ActSetQualityFilter quality =>
      mkSession (setQualityFilter quality (comp s)) (inflight s)
  | ActEnsureVisible v =>
      mkSession (ensureVariantVisible (comp s) v).1 (inflight s)
  | ActFetch v =>
      suspended v (runSync (fetchHgvsAlternatives v) (comp s)) (inflight s)
  | ActLookupSettled i r =>
      match inflight s !! i with
      | Some (mkInFlight v (PendingLookup _ _ _ _ k)) =>
          suspended v (runSync (k r) (comp s)) (delete i (inflight s))
      | _ => s
      end
  | ActPersistSettled i ok =>
      match inflight s !! i with
      | Some (mkInFlight v (PendingPersist _ _ _ k)) =>
          suspended v (runSync (k ok) (comp s)) (delete i (inflight s))
      | _ => s
      end
  end.

(** The view as the constructor leaves it: the signals at their initial
    values, then the first run of the effect. *)
Definition initial (vs : list Variant) (alts : gmap string (list string))
    (j : option string) : Session :=
  mkSession
    (effect_body (mkComponent vs j alts "" "All" "All" "All" "All" ∅)) [].

Inductive reachable : Session → Prop :=
| reachable_initial vs alts j : reachable (initial vs alts j)
| reachable_step a s : reachable s → reachable (step a s).

(** [a] starts or resumes a fetch for a record whose key is [key]. *)
Definition fetchFor key (s : Session) (a : Action) : Prop :=
  match a with
  | ActFetch v => getHgvsKey v = key
  | ActLookupSettled i _ | ActPersistSettled i _ =>
      ∃ f, inflight s !! i = Some f ∧ getHgvsKey (inflVariant f) = key
  | _ => False
  end.

(** The only writes of a method to [hgvsStates] set the entry of [key]. *)
Inductive onlySets key : Prog → Prop :=
| onlySets_Done : onlySets key Done
| onlySets_Read f : (∀ c, onlySets key (f c)) → onlySets key (Read f)
| onlySets_UpdateStates st p :
    onlySets key p → onlySets key (UpdateStates (setEntry key st) p)
| onlySets_Toast message kind p :
    onlySets key p → onlySets key (Toast message kind p)
| onlySets_ConsoleError p : onlySets key p → onlySets key (ConsoleError p)
| onlySets_AwaitLookup t pos r a f :
    (∀ x, onlySets key (f x)) → onlySets key (AwaitLookup t pos r a f)
| onlySets_AwaitPersist j pr al f :
    (∀ x, onlySets key (f x)) → onlySets key (AwaitPersist j pr al f).

Definition pendingOnlySets key (p : Pending) : Prop :=
  match p with
  | PendingLookup _ _ _ _ f => ∀ x, onlySets key (f x)
  | PendingPersist _ _ _ f => ∀ x, onlySets key (f x)
  end.

(** Every fetch in flight writes the entry of its record only. *)
Definition inflightOwnKey (s : Session) : Prop :=
  Forall (λ f, pendingOnlySets (getHgvsKey (inflVariant f)) (inflPending f))
    (inflight s).

(** A view without job id in which the alternatives of [v300] have been
    fetched with success. *)
Definition fetchedSession : Session :=
  step (ActLookupSettled 0 (Some ["ENST00000269305.9:c.215C>G"]))
    (step (ActFetch Samples.v300) (initial [Samples.v300] ∅ None)).

End session_vocabulary.

(** ** Comments *)

(** A view of the comments with nothing expanded and the given drafts. *)
Definition drafts (m : gmap string string) : CommentUi := mkCommentUi ∅ m.

(** ** Searchable texts of a record *)

(** [t] is one of the texts of [v] that the search stage looks into: ref,
    position and alt in one word, the decimal position, the identifier of
    an involved patient, or a resolved HGVS name. *)
Definition searchableText (c : Component) (v : Variant) (t : string) : Prop :=
  t = v_ref v +:+ JS.toString (v_position v) +:+ v_alt v ∨
  t = JS.toString (v_position v) ∨
  involved v t ∨
  t ∈ getHgvs c v.

(** ** Facet values and counts *)

(** The label under which [qualityCounts] counts a record. *)
Definition qualityLabel (v : Variant) : string :=
  if JS.truthy (v_filter v) then default "N/A" (v_filter v) else "N/A".

(** The component with another list of records. *)
Definition withVariants (vs : list Variant) (c : Component) : Component :=
  mkComponent vs (jobId c) (hgvsAlternatives c) (searchTerm c) (filterType c)
    (filterPatient c) (filterConsequence c) (filterQuality c) (hgvsStates c).

(** ** The three states of a cache entry *)

Section tri_state_vocabulary.

Import Fetch.

(** An entry is pending, failed or idle: never loading and failed at once,
    and without alternatives unless idle. *)
Definition triState (e : HgvsState) : Prop :=
  loading e && error e = false ∧
  (loading e || error e = true → alternatives e = []).

(** Every write of a method to [hgvsStates] sets one entry to a state of
    the three. *)
Inductive writesTriState : Prog → Prop :=
| writesTriState_Done : writesTriState Done
| writesTriState_Read f :
    (∀ c, writesTriState (f c)) → writesTriState (Read f)
| writesTriState_UpdateStates key st p :
    triState st → writesTriState p →
    writesTriState (UpdateStates (setEntry key st) p)
| writesTriState_Toast message kind p :
    writesTriState p → writesTriState (Toast message kind p)
| writesTriState_ConsoleError p :
    writesTriState p → writesTriState (ConsoleError p)
| writesTriState_AwaitLookup t pos r a f :
    (∀ x, writesTriState (f x)) → writesTriState (AwaitLookup t pos r a f)
| writesTriState_AwaitPersist j pr al f :
    (∀ x, writesTriState (f x)) → writesTriState (AwaitPersist j pr al f).

Definition pendingTriState (p : Pending) : Prop :=
  match p with
  | PendingLookup _ _ _ _ f => ∀ x, writesTriState (f x)
  | PendingPersist _ _ _ f => ∀ x, writesTriState (f x)
  end.

(** The cache and the fetches in flight of a session respect the three
    states. *)
Definition sessionTriState (s : Session) : Prop :=
  map_Forall (λ _ e, triState e) (hgvsStates (comp s)) ∧
  Forall (λ f, pendingTriState (inflPending f)) (inflight s).

(** The calls to the analysis service among the events of a run. *)
Definition isPersist (e : Event) : bool :=
  match e with EvPersist _ _ _ => true | _ => false end.

Definition isToast (e : Event) : bool :=
  match e with EvToast _ _ => true | _ => false end.

End tri_state_vocabulary.

(** ** Neutral filter state *)

(** Nothing is selected and the search term is blank. *)
Definition neutralState (c : Component) : Prop :=
  filterType c = "All" ∧ filterPatient c = "All" ∧ filterQuality c = "All" ∧
  filterConsequence c = "All" ∧ blank (searchTerm c) = true.

(** * Properties *)

(** ** Strings *)

Section strings.

Lemma app_cons_l (a : ascii) (s t : string) :
  String a s +:+ t = String a (s +:+ t).
Proof. reflexivity. Qed.

Lemma app_nil_l (t : string) : "" +:+ t = t.
Proof. reflexivity. Qed.

Lemma prefix_app (q s : string) :
  String.prefix q s = true ↔ ∃ post, s = q +:+ post.
Proof.
  revert s; induction q as [|a q IH]; intros s; simpl.
  - destruct s; split; eauto.
  - destruct s as [|b s]; simpl; [split; [done | intros [post H]; done] |].
    destruct (ascii_dec a b) as [->|Hne].
    + split.
      * intros H. apply IH in H as [post ->]. by exists post.
      * intros [post H]. rewrite app_cons_l in H. injection H as H.
        apply IH. by exists post.
    + split; [done |]. intros [post H]. rewrite app_cons_l in H.
      injection H as Hab _. by destruct Hne.
Qed.

Lemma includes_nil (q : string) :
  JS.includes "" q = String.prefix q "" || false.
Proof. reflexivity. Qed.

Lemma includes_cons (a : ascii) (s q : string) :
  JS.includes (String a s) q
  = String.prefix q (String a s) || JS.includes s q.
Proof. reflexivity. Qed.

Lemma includes_occurs (s q : string) :
  JS.includes s q = true ↔ occurs q s.
Proof.
  split.
  - induction s as [|a s IH].
    + rewrite includes_nil, orb_false_r. intros H.
      apply prefix_app in H as [post H]. by exists "", post.
    + rewrite includes_cons, orb_true_iff. intros [H|H].
      * apply prefix_app in H as [post H]. by exists "", post.
      * destruct (IH H) as (pre & post & ->).
        by exists (String a pre), post.
  - intros (pre & post & ->). induction pre as [|a pre IH].
    + rewrite app_nil_l.
      assert (String.prefix q (q +:+ post) = true) as Hp
        by (apply prefix_app; eauto).
      destruct (q +:+ post).
      * by rewrite includes_nil, Hp.
      * by rewrite includes_cons, Hp.
    + rewrite app_cons_l, includes_cons, IH. apply orb_true_r.
Qed.

Lemma lower_ascii_space (c : ascii) :
  Ascii.is_space (JS.lower_ascii c) = Ascii.is_space c.
Proof. by destruct c as [[] [] [] [] [] [] [] []]. Qed.

Lemma blank_toLowerCase (s : string) :
  blank (JS.toLowerCase s) = blank s.
Proof.
  induction s as [|c s IH]; simpl; [done |].
  by rewrite lower_ascii_space, IH.
Qed.

Lemma trimStart_blank (s : string) : blank s = true → JS.trimStart s = "".
Proof.
  induction s as [|c s IH]; simpl; [done |].
  rewrite andb_true_iff. intros [-> H]. auto.
Qed.

Lemma trim_blank (s : string) : blank s = true → JS.trim s = "".
Proof.
  intros H. unfold JS.trim. by rewrite (trimStart_blank _ H).
Qed.

Lemma blank_rev_app (s1 s2 : string) :
  blank (String.rev_app s1 s2) = blank s1 && blank s2.
Proof.
  revert s2. induction s1 as [|a s1 IH]; intros s2; simpl; [done |].
  rewrite IH. simpl. destruct (Ascii.is_space a), (blank s1); done.
Qed.

Lemma rev_app_empty (s1 s2 : string) :
  String.rev_app s1 s2 = "" → s1 = "" ∧ s2 = "".
Proof.
  revert s2. induction s1 as [|a s1 IH]; intros s2; simpl; [done |].
  intros H. by destruct (IH _ H) as [_ ?].
Qed.

Lemma blank_trimStart (s : string) :
  blank (JS.trimStart s) = true → blank s = true.
Proof.
  induction s as [|a s IH]; simpl; [done |].
  destruct (Ascii.is_space a) eqn:Ha; simpl; [done |].
  by rewrite Ha.
Qed.

Lemma trimStart_empty (s : string) : JS.trimStart s = "" → blank s = true.
Proof. intros H. apply blank_trimStart. by rewrite H. Qed.

(** [trim] yields the empty string exactly on the blank strings. *)
Lemma trim_empty_iff (s : string) : JS.trim s = "" ↔ blank s = true.
Proof.
  split; [| apply trim_blank].
  unfold JS.trim, JS.trimEnd, String.rev. intros H.
  apply rev_app_empty in H as [H _]. apply trimStart_empty in H.
  rewrite blank_rev_app, andb_true_r in H. by apply blank_trimStart.
Qed.

End strings.

(** ** The filter engine as one predicate *)

Section filter_engine.

Implicit Types (c : Component) (o : Overrides) (v : Variant).

Lemma stage_filter {A} (b : bool) (f : A → bool) (l : list A) :
  (if negb b then List.filter f l else l) = List.filter (λ x, b || f x) l.
Proof.
  destruct b; simpl; [| done].
  induction l as [|x l IH]; simpl; congruence.
Qed.

Lemma filter_filter_andb {A} (f g : A → bool) (l : list A) :
  List.filter g (List.filter f l) = List.filter (λ x, f x && g x) l.
Proof.
  induction l as [|x l IH]; simpl; [done |].
  destruct (f x); simpl; [destruct (g x) |]; congruence.
Qed.

Lemma applyFilters_keeps c o :
  applyFilters c o = List.filter (keeps c o) (variants c).
Proof.
  unfold applyFilters. cbv zeta.
  rewrite !stage_filter, !filter_filter_andb.
  apply List.filter_ext. intros v.
  unfold keeps, facetsKeep, qualityKeeps, typeKeeps, patientKeeps,
    consequenceKeeps, searchKeeps, effSearch, effQuality, effType,
    effPatient, effConsequence.
  by rewrite !andb_assoc.
Qed.

Lemma elem_of_applyFilters c o v :
  v ∈ applyFilters c o ↔ v ∈ variants c ∧ keeps c o v = true.
Proof.
  rewrite applyFilters_keeps, !list_elem_of_In. apply filter_In.
Qed.

Lemma filter_sublist {A} (f : A → bool) (l : list A) :
  List.filter f l `sublist_of` l.
Proof.
  induction l as [|x l IH]; simpl; [constructor |].
  destruct (f x); by constructor.
Qed.

Lemma filter_true {A} (f : A → bool) (l : list A) :
  (∀ x, f x = true) → List.filter f l = l.
Proof.
  intros H. induction l as [|x l IH]; simpl; [done |].
  by rewrite H, IH.
Qed.

End filter_engine.

(** C9. With the four effective facet selections equal to 'All' and a
    search string that is empty or all white space, [applyFilters] returns
    the input list itself; and under every filter state and every override
    its result is a subsequence of the input, in the input's order. *)
Theorem applyFilters_neutral_and_stable :
  (∀ c o,
     effType c o = "All" → effPatient c o = "All" →
     effQuality c o = "All" → effConsequence c o = "All" →
     blank (searchTerm c) = true →
     applyFilters c o = variants c) ∧
  (∀ c o, applyFilters c o `sublist_of` variants c).
Proof.
  split.
  - intros c o Ht Hp Hq Hc Hs. rewrite applyFilters_keeps.
    apply filter_true. intros v.
    unfold keeps, facetsKeep, qualityKeeps, typeKeeps, patientKeeps,
      consequenceKeeps, searchKeeps, effSearch.
    rewrite Ht, Hp, Hq, Hc, trim_blank by (by rewrite blank_toLowerCase).
    reflexivity.
  - intros c o. rewrite applyFilters_keeps. apply filter_sublist.
Qed.

Lemma applyFilters_neutral_and_stable_witness :
  applyFilters (Samples.neutral [Samples.v100; Samples.v200]) no_overrides
  = variants (Samples.neutral [Samples.v100; Samples.v200]).
Proof. apply (proj1 applyFilters_neutral_and_stable); reflexivity. Defined.

(** ** Involved patients *)

Section involved_patients.

Implicit Types (v : Variant) (p : string).

Lemma elem_of_fold_set_add (l acc : list string) (x : string) :
  x ∈ fold_left JS.set_add l acc ↔ x ∈ acc ∨ x ∈ l.
Proof.
  revert acc. induction l as [|y l IH]; intros acc; simpl.
  - rewrite elem_of_nil. tauto.
  - rewrite IH, elem_of_cons. unfold JS.set_add. case_bool_decide.
    + split; [tauto |]. intros [?|[->|?]]; auto.
    + rewrite elem_of_app, list_elem_of_singleton. tauto.
Qed.

Lemma NoDup_fold_set_add (l acc : list string) :
  NoDup acc → NoDup (fold_left JS.set_add l acc).
Proof.
  revert acc. induction l as [|y l IH]; intros acc Hacc; simpl; [done |].
  apply IH. unfold JS.set_add. case_bool_decide; [done |].
  apply NoDup_app. split_and!; [done | | apply NoDup_singleton].
  intros x Hx ->%list_elem_of_singleton. done.
Qed.

Lemma elem_of_set_of_list (l : list string) (x : string) :
  x ∈ JS.set_of_list l ↔ x ∈ l.
Proof.
  unfold JS.set_of_list. rewrite elem_of_fold_set_add, elem_of_nil. tauto.
Qed.

Lemma NoDup_set_of_list (l : list string) : NoDup (JS.set_of_list l).
Proof. apply NoDup_fold_set_add, NoDup_nil_2. Qed.

Lemma elem_of_sort (l : list string) (x : string) : x ∈ JS.sort l ↔ x ∈ l.
Proof. unfold JS.sort. by rewrite merge_sort_Permutation. Qed.

Lemma NoDup_sort (l : list string) : NoDup l → NoDup (JS.sort l).
Proof. unfold JS.sort. by rewrite merge_sort_Permutation. Qed.

Lemma StronglySorted_sort (l : list string) :
  StronglySorted String.le (JS.sort l).
Proof. apply StronglySorted_merge_sort; apply _. Qed.

Lemma StronglySorted_strict (l : list string) :
  StronglySorted String.le l → NoDup l → StronglySorted str_lt l.
Proof.
  induction 1 as [|x l Hl IH Hx]; intros Hnd; [constructor |].
  apply NoDup_cons in Hnd as [Hnotin Hnd].
  constructor; [auto |].
  apply List.Forall_forall. intros y Hy.
  split; [by eapply List.Forall_forall in Hx |].
  intros ->. by apply Hnotin, list_elem_of_In.
Qed.

Lemma elem_of_companionPatients v p :
  p ∈ companionPatients v ↔
  ∃ ps q, v_polymorphism v = Some ps ∧ q ∈ ps ∧ p = v_patient q.
Proof.
  unfold companionPatients. destruct (v_polymorphism v) as [ps|].
  - rewrite list_elem_of_fmap. split.
    + intros (q & -> & Hq). by exists ps, q.
    + intros (ps' & q & [= <-] & Hq & ->). by exists q.
  - rewrite elem_of_nil. split; [done |]. by intros (? & ? & ? & _).
Qed.

Lemma elem_of_getInvolvedPatients v p :
  p ∈ getInvolvedPatients v ↔ involved v p.
Proof.
  unfold getInvolvedPatients, involved.
  by rewrite elem_of_sort, elem_of_set_of_list, elem_of_cons,
    elem_of_companionPatients.
Qed.

Lemma NoDup_getInvolvedPatients v : NoDup (getInvolvedPatients v).
Proof. apply NoDup_sort, NoDup_set_of_list. Qed.

Lemma getInvolvedPatients_sorted v :
  StronglySorted str_lt (getInvolvedPatients v).
Proof.
  apply StronglySorted_strict;
    [apply StronglySorted_sort | apply NoDup_getInvolvedPatients].
Qed.

Lemma own_patient_involved v : v_patient v ∈ getInvolvedPatients v.
Proof. apply elem_of_getInvolvedPatients. by left. Qed.

(** The patient stage of [applyFilters] and the membership test of
    [ensureVariantVisible] agree with [involved]. *)
Lemma patientStage_involved (pf : string) v :
  patientStage pf v = true ↔ involved v pf.
Proof.
  unfold patientStage, involved.
  destruct (String.eqb_spec (v_patient v) pf) as [<-|Hne]; [split; auto |].
  destruct (v_polymorphism v) as [ps|].
  - unfold JS.some. rewrite existsb_exists. split.
    + intros (q & Hq%list_elem_of_In & Heq%String.eqb_eq).
      right. by exists ps, q.
    + intros [?|(ps' & q & [= <-] & Hq & ->)]; [congruence |].
      exists q. by rewrite <- list_elem_of_In, String.eqb_eq.
  - split; [done |]. intros [?|(? & ? & ? & _)]; congruence.
Qed.

Lemma array_includes_elem_of (l : list string) (x : string) :
  JS.array_includes l x = true ↔ x ∈ l.
Proof.
  unfold JS.array_includes. rewrite existsb_exists. split.
  - intros (y & Hy%list_elem_of_In & Heq%String.eqb_eq). by subst.
  - intros Hx. exists x. by rewrite <- list_elem_of_In, String.eqb_eq.
Qed.

End involved_patients.

(** ** Facet counts *)

Section facet_counts.

Local Open Scope nat_scope.
Implicit Types (m : gmap string CountValue) (k : string) (ks : list string).

Lemma sumCounts_empty : sumCounts ∅ = Some 0.
Proof. apply map_fold_empty. Qed.

Lemma addCount_comm (x y : CountValue) (acc : option nat) :
  addCount x (addCount y acc) = addCount y (addCount x acc).
Proof.
  destruct x as [n1|o1 s1], y as [n2|o2 s2], acc as [a|]; simpl; try done.
  f_equal. lia.
Qed.

Lemma sumCounts_insert m k (x : CountValue) :
  m !! k = None → sumCounts (<[k:=x]> m) = addCount x (sumCounts m).
Proof.
  intros Hk. unfold sumCounts.
  rewrite map_fold_insert_L; [done | | done].
  intros. apply addCount_comm.
Qed.

Lemma sumCounts_delete m k (x : CountValue) :
  m !! k = Some x → sumCounts m = addCount x (sumCounts (delete k m)).
Proof.
  intros Hk. rewrite <- (insert_id m k x Hk) at 1.
  rewrite <- insert_delete_eq.
  apply sumCounts_insert, lookup_delete_eq.
Qed.

Lemma prototypeKey_false k :
  prototypeKey k = false →
  String.eqb k "__proto__" = false ∧
  JS.array_includes prototypeFunctions k = false.
Proof. unfold prototypeKey. by intros [-> ->]%orb_false_elim. Qed.

Lemma ordinaryKey_true k :
  ordinaryKey k = true → k ≠ "All" ∧ prototypeKey k = false.
Proof.
  unfold ordinaryKey. rewrite andb_true_iff, !negb_true_iff.
  intros [Hk Hp]. split; [by apply String.eqb_neq | done].
Qed.

(** An increment leaves every other key alone. *)
Lemma lookup_increment_ne m k k' :
  k ≠ k' → increment m k !! k' = m !! k'.
Proof.
  intros Hne. unfold increment, setProp.
  destruct (String.eqb k "__proto__"); [done |].
  by rewrite lookup_insert_ne.
Qed.

Lemma lookup_increment_entry m k (j : nat) :
  m !! k = entryAfter k j → increment m k !! k = entryAfter k (S j).
Proof.
  intros Hm. unfold increment, setProp, getProp. cbn [entryAfter].
  destruct (String.eqb k "__proto__") eqn:Hp.
  - rewrite Hm. destruct j; cbn [entryAfter]; by rewrite ?Hp.
  - rewrite lookup_insert_eq, Hm.
    destruct j as [|j]; cbn [entryAfter]; rewrite ?Hp;
      destruct (JS.array_includes prototypeFunctions k); cbn; try done.
    f_equal. f_equal. lia.
Qed.

Lemma lookup_fold_increment ks m k (j : nat) :
  m !! k = entryAfter k j →
  fold_left increment ks m !! k = entryAfter k (j + occurrences k ks).
Proof.
  revert m j. induction ks as [|k' ks IH]; intros m j Hm; simpl.
  - unfold occurrences. simpl. by rewrite Nat.add_0_r.
  - unfold occurrences. simpl.
    destruct (String.eqb_spec k k') as [<-|Hne]; simpl.
    + rewrite (IH _ (S j)) by by apply lookup_increment_entry.
      f_equal. unfold occurrences. lia.
    + apply IH. by rewrite lookup_increment_ne.
Qed.

Lemma occurrences_notin k ks : k ∉ ks → occurrences k ks = 0.
Proof.
  intros Hk. unfold occurrences.
  induction ks as [|k' ks IH]; simpl; [done |].
  apply not_elem_of_cons in Hk as [Hne Hk].
  destruct (String.eqb_spec k k'); [done | auto].
Qed.

Lemma occurrences_NoDup k ks :
  NoDup ks → occurrences k ks = if bool_decide (k ∈ ks) then 1 else 0.
Proof.
  induction 1 as [|k' ks Hnotin Hnd IH]; [done |].
  unfold occurrences in *. simpl.
  destruct (String.eqb_spec k k') as [->|Hne]; simpl.
  - rewrite bool_decide_eq_true_2 by left.
    fold (occurrences k' ks). by rewrite occurrences_notin.
  - assert (bool_decide (k ∈ k' :: ks) = bool_decide (k ∈ ks)) as Heq
      by (apply bool_decide_ext; rewrite elem_of_cons; intuition).
    by rewrite Heq.
Qed.

Lemma occurrences_app k ks1 ks2 :
  occurrences k (ks1 ++ ks2) = occurrences k ks1 + occurrences k ks2.
Proof. unfold occurrences. by rewrite List.filter_app, length_app. Qed.

Lemma countsOf_All keys total :
  countsOf keys total !! "All" = Some (CountNumber total).
Proof. unfold countsOf, setProp. simpl. apply lookup_insert_eq. Qed.

(** The entry of a concrete key in a counter, whatever the key is. *)
Lemma countsOf_lookup keys total k :
  k ≠ "All" → countsOf keys total !! k = entryAfter k (occurrences k keys).
Proof.
  intros Hk. unfold countsOf, setProp. simpl.
  rewrite lookup_insert_ne by done.
  by rewrite (lookup_fold_increment keys ∅ k 0).
Qed.

Lemma entryAfter_ordinary k (n : nat) :
  prototypeKey k = false → entryAfter k n = countEntry n.
Proof.
  intros [Hp Hf]%prototypeKey_false. destruct n; [done |].
  cbn [entryAfter countEntry]. by rewrite Hp, Hf.
Qed.

Lemma sumCounts_increment m k (s : nat) :
  prototypeKey k = false → sumCounts m = Some s →
  sumCounts (increment m k) = Some (S s).
Proof.
  intros [Hp Hf]%prototypeKey_false Hs.
  unfold increment, setProp, getProp. rewrite Hp.
  destruct (m !! k) as [x|] eqn:Hk.
  - rewrite (sumCounts_delete m k x Hk) in Hs.
    rewrite <- insert_delete_eq.
    rewrite sumCounts_insert by apply lookup_delete_eq.
    destruct x as [n|o t]; simpl in *; [| done].
    destruct (sumCounts (delete k m)) as [a|]; simpl in *; [| done].
    injection Hs as <-. f_equal. lia.
  - rewrite Hf. rewrite sumCounts_insert by done. by rewrite Hs.
Qed.

Lemma sumCounts_fold_increment ks m (s : nat) :
  Forall (λ k, prototypeKey k = false) ks → sumCounts m = Some s →
  sumCounts (fold_left increment ks m) = Some (length ks + s).
Proof.
  intros Hks. revert m s.
  induction Hks as [|k ks Hk Hks IH]; intros m s Hs; simpl; [done |].
  rewrite (IH _ (S s)) by by apply sumCounts_increment.
  f_equal. lia.
Qed.

(** The counts of the concrete values of a counter sum to the number of
    increments when every key is an ordinary one. *)
Lemma sumConcrete_countsOf keys total :
  Forall (λ k, ordinaryKey k = true) keys →
  sumConcrete (countsOf keys total) = Some (length keys).
Proof.
  intros Hks. unfold sumConcrete, countsOf, setProp. simpl.
  rewrite delete_insert_eq.
  assert ("All" ∉ keys) as Hall.
  { intros Hin. eapply List.Forall_forall in Hks;
      [| by apply list_elem_of_In]. done. }
  rewrite delete_id.
  - rewrite (sumCounts_fold_increment keys ∅ 0);
      [f_equal; lia | | apply sumCounts_empty].
    eapply Forall_impl; [exact Hks |]. intros k Hk.
    by apply ordinaryKey_true in Hk as [_ ?].
  - rewrite (lookup_fold_increment keys ∅ "All" 0) by done.
    by rewrite occurrences_notin.
Qed.

Lemma fold_left_flat_map {A B C} (f : A → B → A) (g : C → list B)
    (l : list C) (a : A) :
  fold_left (λ acc x, fold_left f (g x) acc) l a
  = fold_left f (flat_map g l) a.
Proof.
  revert a. induction l as [|x l IH]; intros a; simpl; [done |].
  by rewrite fold_left_app, IH.
Qed.

Lemma fold_left_ext_fun {A B} (f g : A → B → A) (l : list B) (a : A) :
  (∀ a x, f a x = g a x) → fold_left f l a = fold_left g l a.
Proof.
  intros H. revert a. induction l as [|x l IH]; intros a; simpl; [done |].
  by rewrite H, IH.
Qed.

Implicit Types (c : Component) (v : Variant).

Lemma typeCounts_countsOf c :
  typeCounts c
  = countsOf (flat_map typeKeys (typeBase c)) (length (typeBase c)).
Proof.
  unfold typeCounts, countsOf. cbv zeta. fold (typeBase c).
  by rewrite <- fold_left_flat_map.
Qed.

Lemma qualityCounts_countsOf c :
  qualityCounts c
  = countsOf (flat_map qualityKeys (qualityBase c))
      (length (qualityBase c)).
Proof.
  unfold qualityCounts, countsOf. cbv zeta. fold (qualityBase c).
  by rewrite <- fold_left_flat_map.
Qed.

Lemma patientCounts_countsOf c :
  patientCounts c
  = countsOf (flat_map getInvolvedPatients (patientBase c))
      (length (patientBase c)).
Proof.
  unfold patientCounts, countsOf. cbv zeta. fold (patientBase c).
  by rewrite <- fold_left_flat_map.
Qed.

Lemma consequenceCounts_countsOf c :
  consequenceCounts c
  = countsOf (flat_map consequenceKeys (consequenceBase c))
      (length (consequenceBase c)).
Proof.
  unfold consequenceCounts, countsOf. cbv zeta. fold (consequenceBase c).
  rewrite <- fold_left_flat_map. f_equal.
  apply fold_left_ext_fun. intros m v. unfold consequenceKeys.
  by destruct (JS.truthy (v_consequence v)).
Qed.

Lemma length_flat_map_singleton {A B} (g : A → list B) (l : list A) :
  (∀ x, length (g x) = 1) → length (flat_map g l) = length l.
Proof.
  intros H. induction l as [|x l IH]; simpl; [done |].
  rewrite length_app, H, IH. done.
Qed.

Lemma length_flat_map_ge {A B} (g : A → list B) (l : list A) :
  (∀ x, 1 ≤ length (g x)) → length l ≤ length (flat_map g l).
Proof.
  intros H. induction l as [|x l IH]; simpl; [done |].
  rewrite length_app. specialize (H x). lia.
Qed.

Lemma length_flat_map_gt {A B} (g : A → list B) (l : list A) :
  (∀ x, 1 ≤ length (g x)) → Exists (λ x, 2 ≤ length (g x)) l →
  length l < length (flat_map g l).
Proof.
  intros H. induction 1 as [x l Hx|x l Hl IH]; simpl; rewrite length_app.
  - pose proof (length_flat_map_ge g l H). lia.
  - specialize (H x). lia.
Qed.

Lemma Forall_flat_map {A} (P : string → Prop) (g : A → list string)
    (l : list A) :
  Forall (λ x, Forall P (g x)) l → Forall P (flat_map g l).
Proof.
  induction 1 as [|x l Hx Hl IH]; simpl; [constructor |].
  apply Forall_app. by split.
Qed.

Lemma occurrences_flat_map_NoDup {A} (g : A → list string) (l : list A) k :
  (∀ x, NoDup (g x)) →
  occurrences k (flat_map g l)
  = length (List.filter (λ x, bool_decide (k ∈ g x)) l).
Proof.
  intros Hnd. induction l as [|x l IH]; simpl; [done |].
  rewrite occurrences_app, IH, occurrences_NoDup by done.
  by destruct (bool_decide (k ∈ g x)).
Qed.

Lemma lookup_increment_self m1 m2 k :
  m1 !! k = m2 !! k → increment m1 k !! k = increment m2 k !! k.
Proof.
  intros H. unfold increment, setProp, getProp.
  destruct (String.eqb k "__proto__"); [done |].
  by rewrite !lookup_insert_eq, H.
Qed.

(** The loop of one record over a list of keys without duplicates
    increments a key at most once. *)
Lemma lookup_fold_increment_NoDup ks m k :
  NoDup ks →
  fold_left increment ks m !! k
  = (if bool_decide (k ∈ ks) then increment m k else m) !! k.
Proof.
  intros Hnd. revert m. induction Hnd as [|k' ks Hnotin Hnd IH]; intros m;
    simpl; [done |].
  rewrite IH. destruct (decide (k = k')) as [->|Hne].
  - rewrite bool_decide_eq_false_2 by done.
    by rewrite bool_decide_eq_true_2 by left.
  - assert (bool_decide (k ∈ k' :: ks) = bool_decide (k ∈ ks)) as Heq
      by (apply bool_decide_ext; rewrite elem_of_cons; intuition).
    rewrite Heq. destruct (bool_decide (k ∈ ks)).
    + apply lookup_increment_self. by rewrite lookup_increment_ne.
    + by rewrite lookup_increment_ne.
Qed.

End facet_counts.

(** ** Search stage *)

Section search_stage.

Implicit Types (c : Component) (v : Variant) (q : string).

Lemma some_includes_map (l : list string) q :
  JS.some (λ p, JS.includes p q) (map JS.toLowerCase l) = true ↔
  ∃ x, x ∈ l ∧ occurs q (JS.toLowerCase x).
Proof.
  unfold JS.some. rewrite existsb_exists. split.
  - intros (y & Hy & Hinc). apply in_map_iff in Hy as (x & <- & Hx).
    exists x. by rewrite list_elem_of_In, <- includes_occurs.
  - intros (x & Hx & Hocc). exists (JS.toLowerCase x).
    rewrite includes_occurs. split; [| done].
    apply in_map. by apply list_elem_of_In.
Qed.

Lemma searchMatches_occurs c q v :
  searchMatches c q v = true ↔
  occurs q (JS.toLowerCase
              (v_ref v +:+ JS.toString (v_position v) +:+ v_alt v)) ∨
  occurs q (JS.toString (v_position v)) ∨
  (∃ p, involved v p ∧ occurs q (JS.toLowerCase p)) ∨
  (∃ h, h ∈ getHgvs c v ∧ occurs q (JS.toLowerCase h)).
Proof.
  unfold searchMatches. cbv zeta.
  rewrite !orb_true_iff, !includes_occurs, !some_includes_map.
  setoid_rewrite elem_of_getInvolvedPatients. tauto.
Qed.

Lemma lower_pretty_N_char (n : N) :
  JS.lower_ascii (pretty_N_char n) = pretty_N_char n.
Proof. unfold pretty_N_char. by repeat case_match. Qed.

Lemma lower_pretty_N_go (x : N) (s : string) :
  JS.toLowerCase s = s →
  JS.toLowerCase (pretty_N_go x s) = pretty_N_go x s.
Proof.
  revert s. induction (N.lt_wf_0 x) as [x _ IH]. intros s Hs.
  destruct (decide (0 < x)%N) as [Hx|Hx].
  - rewrite pretty_N_go_step by done.
    apply IH; [by apply N.div_lt |].
    simpl. by rewrite lower_pretty_N_char, Hs.
  - assert (x = 0%N) as -> by lia. by rewrite pretty_N_go_0.
Qed.

Lemma lower_toString (z : Z) :
  JS.toLowerCase (JS.toString z) = JS.toString z.
Proof.
  unfold JS.toString, pretty, pretty_Z.
  destruct z as [|x|x]; [done | |];
    unfold pretty, pretty_positive, pretty, pretty_N;
    (case_decide; [done |]).
  - by apply lower_pretty_N_go.
  - change ("-" +:+ ?t) with (String "-" t). simpl.
    f_equal. by apply lower_pretty_N_go.
Qed.

End search_stage.

(** ** Leave-one-out counts and involved patients *)

(** C1 (counterexample). One record of patient P1 with companions of
    patient P2: the patient counts of the concrete values sum to 2 and the
    consequence counts of a record without consequence sum to 0, while the
    base list has one record in both cases. *)
Lemma facet_counts_not_a_partition :
  sumConcrete (patientCounts (Samples.neutral [Samples.v300])) = Some 2%nat ∧
  length (patientBase (Samples.neutral [Samples.v300])) = 1%nat ∧
  patientCounts (Samples.neutral [Samples.v300]) !! "All"
  = Some (CountNumber 1) ∧
  sumConcrete (consequenceCounts (Samples.neutral [Samples.v100]))
  = Some 0%nat ∧
  length (consequenceBase (Samples.neutral [Samples.v100])) = 1%nat.
Proof. vm_compute. done. Qed.

(** C1 (amended). In each of the four counters the 'All' entry is the
    length of the leave-one-out base list. When every key that the records
    of the base list carry is an ordinary one (neither 'All' nor a
    property name of [Object.prototype]): the type counts and the quality
    counts (with 'N/A' for a missing or empty flag) of the concrete values
    are numbers that sum to the length of the base list; the patient
    counts sum to the number of pairs of a base record and one of its
    involved patients, which is at least the length of the base list and
    more as soon as a base record has a companion of another patient; the
    consequence counts sum to the number of base records with a non-empty
    consequence, which is at most the length of the base list. *)
Theorem facet_counts_leave_one_out (c : Component) :
  (typeCounts c !! "All" = Some (CountNumber (length (typeBase c))) ∧
   (Forall (λ v, ordinaryKey (v_type v) = true) (typeBase c) →
    sumConcrete (typeCounts c) = Some (length (typeBase c)))) ∧
  (qualityCounts c !! "All" = Some (CountNumber (length (qualityBase c))) ∧
   (Forall (λ v, ∀ f, v_filter v = Some f → ordinaryKey f = true)
      (qualityBase c) →
    sumConcrete (qualityCounts c) = Some (length (qualityBase c)))) ∧
  (patientCounts c !! "All" = Some (CountNumber (length (patientBase c))) ∧
   (Forall (λ v, ∀ p, involved v p → ordinaryKey p = true) (patientBase c) →
    sumConcrete (patientCounts c)
    = Some (length (flat_map getInvolvedPatients (patientBase c))) ∧
    (length (patientBase c)
     ≤ length (flat_map getInvolvedPatients (patientBase c)))%nat ∧
    (Exists (λ v, ∃ p, involved v p ∧ p ≠ v_patient v) (patientBase c) →
     (length (patientBase c)
      < length (flat_map getInvolvedPatients (patientBase c)))%nat))) ∧
  (consequenceCounts c !! "All"
   = Some (CountNumber (length (consequenceBase c))) ∧
   (Forall (λ v, ∀ x, v_consequence v = Some x → ordinaryKey x = true)
      (consequenceBase c) →
    sumConcrete (consequenceCounts c)
    = Some (length (List.filter (λ v, JS.truthy (v_consequence v))
                      (consequenceBase c))) ∧
    (length (List.filter (λ v, JS.truthy (v_consequence v))
               (consequenceBase c))
     ≤ length (consequenceBase c))%nat)).
Proof.
  rewrite typeCounts_countsOf, qualityCounts_countsOf, patientCounts_countsOf,
    consequenceCounts_countsOf.
  assert (∀ v, (1 ≤ length (getInvolvedPatients v))%nat) as Hone.
  { intros v. pose proof (own_patient_involved v) as Hv.
    destruct (getInvolvedPatients v); [by apply elem_of_nil in Hv |].
    simpl. lia. }
  split_and!; try apply countsOf_All.
  - intros H. rewrite sumConcrete_countsOf.
    + f_equal. by apply length_flat_map_singleton.
    + apply Forall_flat_map. eapply Forall_impl; [exact H |].
      intros v Hv. unfold typeKeys. by repeat constructor.
  - intros H. rewrite sumConcrete_countsOf.
    + f_equal. by apply length_flat_map_singleton.
    + apply Forall_flat_map. eapply Forall_impl; [exact H |].
      intros v Hv. simpl in Hv. unfold qualityKeys.
      repeat constructor.
      destruct (v_filter v) as [f|]; simpl; [| done].
      destruct (String.eqb f ""); simpl; [done | by apply Hv].
  - intros H. split_and!.
    + apply sumConcrete_countsOf, Forall_flat_map.
      eapply Forall_impl; [exact H |]. intros v Hv. simpl in Hv.
      apply List.Forall_forall. intros p Hp%list_elem_of_In.
      by apply Hv, elem_of_getInvolvedPatients.
    + by apply length_flat_map_ge.
    + intros Hex. apply length_flat_map_gt; [done |].
      eapply Exists_impl; [exact Hex |]. intros v (p & Hp & Hne). simpl.
      apply elem_of_getInvolvedPatients in Hp.
      pose proof (own_patient_involved v) as Hv.
      destruct (getInvolvedPatients v) as [|a [|b l]]; simpl; [| | lia].
      * by apply elem_of_nil in Hp.
      * apply list_elem_of_singleton in Hp, Hv. congruence.
  - intros H.
    assert (length (flat_map consequenceKeys (consequenceBase c))
            = length (List.filter (λ v, JS.truthy (v_consequence v))
                        (consequenceBase c))) as Hlen.
    { generalize (consequenceBase c). intros l.
      induction l as [|v l IH]; simpl; [done |].
      rewrite length_app, IH. unfold consequenceKeys.
      by destruct (JS.truthy (v_consequence v)). }
    split; [| apply List.filter_length_le].
    rewrite sumConcrete_countsOf; [by rewrite Hlen |].
    apply Forall_flat_map. eapply Forall_impl; [exact H |].
    intros v Hv. simpl in Hv. unfold consequenceKeys.
    destruct (v_consequence v) as [x|]; simpl; [| constructor].
    destruct (String.eqb x ""); simpl; [constructor |].
    repeat constructor. by apply Hv.
Qed.

Lemma facet_counts_leave_one_out_witness :
  sumConcrete (typeCounts (Samples.neutral [Samples.v100; Samples.v300]))
  = Some (length (typeBase (Samples.neutral [Samples.v100; Samples.v300]))).
Proof.
  apply (proj1 (facet_counts_leave_one_out
                  (Samples.neutral [Samples.v100; Samples.v300]))).
  repeat constructor.
Defined.

(** C10. [getInvolvedPatients] returns the record's own patient and the
    patients of its companions, without duplicates and in strictly
    ascending order. Hence the loop of [patientCounts] over one record
    increments the entry of a patient at most once, whatever the number of
    the record's companions of that patient, and the entry of a key other
    than 'All' is the one that as many increments as there are base
    records involving that key leave behind: for an ordinary identifier
    that number itself. *)
Theorem getInvolvedPatients_set_and_counts :
  (∀ v,
     NoDup (getInvolvedPatients v) ∧
     StronglySorted str_lt (getInvolvedPatients v) ∧
     ∀ p, p ∈ getInvolvedPatients v ↔ involved v p) ∧
  (∀ v (counts : gmap string CountValue) p,
     fold_left increment (getInvolvedPatients v) counts !! p
     = (if bool_decide (p ∈ getInvolvedPatients v)
        then increment counts p else counts) !! p) ∧
  (∀ c p,
     p ≠ "All" →
     patientCounts c !! p
     = entryAfter p
         (length (List.filter (λ v, bool_decide (p ∈ getInvolvedPatients v))
                    (patientBase c))) ∧
     (prototypeKey p = false →
      patientCounts c !! p
      = countEntry
          (length (List.filter
                     (λ v, bool_decide (p ∈ getInvolvedPatients v))
                     (patientBase c))))).
Proof.
  split_and!.
  - intros v. split_and!.
    + apply NoDup_getInvolvedPatients.
    + apply getInvolvedPatients_sorted.
    + apply elem_of_getInvolvedPatients.
  - intros v counts p.
    apply lookup_fold_increment_NoDup, NoDup_getInvolvedPatients.
  - intros c p Hp.
    assert (patientCounts c !! p
            = entryAfter p
                (length (List.filter
                           (λ v, bool_decide (p ∈ getInvolvedPatients v))
                           (patientBase c)))) as Hentry.
    { rewrite patientCounts_countsOf, countsOf_lookup by done. f_equal.
      apply occurrences_flat_map_NoDup, NoDup_getInvolvedPatients. }
    split; [done |]. intros Hproto.
    by rewrite Hentry, entryAfter_ordinary.
Qed.

Lemma getInvolvedPatients_set_and_counts_witness :
  patientCounts (Samples.neutral [Samples.v300]) !! "P2"
  = entryAfter "P2"
      (length (List.filter
                 (λ v, bool_decide ("P2" ∈ getInvolvedPatients v))
                 (patientBase (Samples.neutral [Samples.v300])))).
Proof.
  refine (proj1 (proj2 (proj2 getInvolvedPatients_set_and_counts)
                   (Samples.neutral [Samples.v300]) "P2" _)).
  discriminate.
Defined.

(** The companions of [v300] name P2 twice and P1 once more. *)
Example getInvolvedPatients_v300 :
  getInvolvedPatients Samples.v300 = ["P1"; "P2"] ∧
  patientCounts (Samples.neutral [Samples.v300]) !! "P2"
  = Some (CountNumber 1).
Proof. vm_compute. done. Qed.

(** A record whose patient is called like a property of
    [Object.prototype]: the counter holds a text under 'constructor' and
    nothing under '__proto__'. *)
Example patientCounts_prototype_names :
  patientCounts
    (Samples.neutral
       [Samples.mk 600 "SNV" "constructor" None None HgvsAbsent
          (Some [Samples.mk 600 "SNV" "__proto__" None None HgvsAbsent None])])
  = {[ "constructor" := CountText (OfFunction "constructor") "1";
       "All" := CountNumber 1 ]}.
Proof. vm_compute. done. Qed.

(** ** Quality and search stages *)

(** C6 (counterexample). A record whose quality flag is the empty string
    is kept under the selection 'PASS', which the flag does not equal. *)
Lemma quality_stage_keeps_empty_flag :
  v_filter Samples.v400 = Some "" ∧
  filterQuality (setQualityFilter "PASS" (Samples.neutral [Samples.v400]))
  = "PASS" ∧
  applyFilters (setQualityFilter "PASS" (Samples.neutral [Samples.v400]))
    no_overrides
  = [Samples.v400].
Proof. vm_compute. done. Qed.

(** C6 (amended). Under a concrete quality selection the quality stage of
    [applyFilters] keeps a record whose flag is absent or the empty string,
    and keeps a record with a non-empty flag iff the flag equals the
    selection; a record is in the result iff it is in the input, the
    quality stage keeps it and the other stages keep it. *)
Theorem quality_stage_keeps (c : Component) (o : Overrides) (v : Variant) :
  effQuality c o ≠ "All" →
  (qualityKeeps c o v = true ↔
   v_filter v = None ∨ v_filter v = Some "" ∨
   v_filter v = Some (effQuality c o)) ∧
  (v ∈ applyFilters c o ↔
   v ∈ variants c ∧ qualityKeeps c o v = true ∧
   typeKeeps c o v = true ∧ patientKeeps c o v = true ∧
   consequenceKeeps c o v = true ∧ searchKeeps c v = true).
Proof.
  intros Hq. split.
  - unfold qualityKeeps, qualityStage.
    apply String.eqb_neq in Hq. rewrite Hq. simpl.
    destruct (v_filter v) as [f|]; simpl; [| split; auto].
    destruct (String.eqb_spec f "") as [->|Hf]; simpl; [split; auto |].
    rewrite String.eqb_eq. split; [intros ->; auto |].
    intros [?|[?|?]]; congruence.
  - rewrite elem_of_applyFilters. unfold keeps, facetsKeep.
    rewrite !andb_true_iff. tauto.
Qed.

Lemma quality_stage_keeps_witness :
  qualityKeeps (setQualityFilter "PASS" (Samples.neutral [Samples.v100]))
    no_overrides Samples.v100 = true ↔
  v_filter Samples.v100 = None ∨ v_filter Samples.v100 = Some "" ∨
  v_filter Samples.v100 = Some "PASS".
Proof.
  apply (quality_stage_keeps
           (setQualityFilter "PASS" (Samples.neutral [Samples.v100]))
           no_overrides Samples.v100).
  discriminate.
Defined.

(** The quality scenario: under 'PASS' only position 100 is left, under
    'All' both records are, and the patient counts under 'PASS' are
    P1:1 and All:1. *)
Example quality_scenario :
  map v_position
    (applyFilters
       (setQualityFilter "PASS" (Samples.neutral [Samples.v100; Samples.v200]))
       no_overrides) = [100] ∧
  map v_position
    (applyFilters (Samples.neutral [Samples.v100; Samples.v200]) no_overrides)
  = [100; 200] ∧
  patientCounts
    (setQualityFilter "PASS" (Samples.neutral [Samples.v100; Samples.v200]))
  = {[ "P1" := CountNumber 1; "All" := CountNumber 1 ]}.
Proof. vm_compute. done. Qed.

(** C7. When the trimmed, lower-cased query is not empty, a record is in
    the result of [applyFilters] iff it is in the input, the four facet
    stages keep it, and the query occurs in the lower-cased ref+position+alt,
    in the decimal rendering of the position (which has no letters), in
    the lower-cased identifier of an involved patient, or in a lower-cased
    string of [getHgvs]. In particular a record whose raw [hgvs] field is
    empty passes the search stage through an alternative cached under its
    key. *)
Theorem search_stage_projections (c : Component) (o : Overrides) (v : Variant) :
  effSearch c ≠ "" →
  (v ∈ applyFilters c o ↔
   v ∈ variants c ∧ facetsKeep c o v = true ∧
   (occurs (effSearch c)
      (JS.toLowerCase (v_ref v +:+ JS.toString (v_position v) +:+ v_alt v)) ∨
    occurs (effSearch c) (JS.toString (v_position v)) ∨
    (∃ p, involved v p ∧ occurs (effSearch c) (JS.toLowerCase p)) ∨
    (∃ h, h ∈ getHgvs c v ∧ occurs (effSearch c) (JS.toLowerCase h)))) ∧
  JS.toLowerCase (JS.toString (v_position v)) = JS.toString (v_position v) ∧
  (∀ st h,
     rawHgvs v = [] →
     hgvsStates c !! getHgvsKey v = Some st →
     h ∈ alternatives st →
     occurs (effSearch c) (JS.toLowerCase h) →
     searchKeeps c v = true).
Proof.
  intros Hs. apply String.eqb_neq in Hs.
  assert (searchKeeps c v = searchMatches c (effSearch c) v) as Hk
    by (unfold searchKeeps; by rewrite Hs).
  split_and!.
  - rewrite elem_of_applyFilters. unfold keeps.
    by rewrite andb_true_iff, Hk, searchMatches_occurs.
  - apply lower_toString.
  - intros st h _ Hst Hh Hocc. rewrite Hk, searchMatches_occurs.
    do 3 right. exists h. split; [| done].
    unfold getHgvs. rewrite Hst.
    destruct (alternatives st); [by apply elem_of_nil in Hh | done].
Qed.

Lemma search_stage_projections_witness :
  effSearch cachedSearch ≠ "" ∧ searchKeeps cachedSearch Samples.v100 = true.
Proof.
  assert (effSearch cachedSearch ≠ "") as Hs by (vm_compute; discriminate).
  split; [exact Hs |].
  apply (proj2 (proj2 (search_stage_projections cachedSearch no_overrides
                         Samples.v100 Hs))
           (mkHgvsState false false ["HGVS:NM_001.3:c.5A>T"])
           "HGVS:NM_001.3:c.5A>T").
  - reflexivity.
  - reflexivity.
  - constructor.
  - exists "", ".3:c.5a>t". reflexivity.
Defined.

Example search_scenario :
  effSearch cachedSearch = "hgvs:nm_001" ∧
  applyFilters cachedSearch no_overrides = [Samples.v100].
Proof. vm_compute. done. Qed.

(** ** The annotation key *)

Section annotation_key.

Implicit Types (c : Component) (v : Variant).

Lemma getHgvsKey_raw v :
  blankHgvsString v = false →
  getHgvsKey v = primaryOr (rawHgvs v) (v_position v).
Proof.
  unfold getHgvsKey, rawHgvs, blankHgvsString.
  destruct (v_hgvs v) as [|s|[|h l]]; try done.
  destruct (String.eqb_spec s "") as [->|Hs]; simpl; [done |].
  intros Hb. by rewrite (proj2 (String.eqb_neq _ _))
    by (by rewrite trim_empty_iff, Hb).
Qed.

Lemma getHgvs_raw c v :
  (∀ st, hgvsStates c !! getHgvsKey v = Some st → alternatives st = []) →
  getHgvs c v = rawHgvs v.
Proof.
  intros H. unfold getHgvs.
  destruct (hgvsStates c !! getHgvsKey v) as [st|]; [| done].
  by rewrite (H st eq_refl).
Qed.

End annotation_key.

(** C2 (counterexample). The resolved sequence of [v300] starts with the
    cached alternative while its key is the raw name; a second record with
    the same resolved primary name has another key and no cache entry. *)
Lemma getHgvsKey_not_resolved_primary :
  head (getHgvs cachedAlternatives Samples.v300)
  = Some "ENST00000269305.9:c.215C>G" ∧
  getHgvsKey Samples.v300 = "NM_000546.6:c.215C>G" ∧
  head (getHgvs cachedAlternatives v300_ensembl)
  = Some "ENST00000269305.9:c.215C>G" ∧
  getHgvsKey v300_ensembl = "ENST00000269305.9:c.215C>G" ∧
  getHgvsState cachedAlternatives v300_ensembl = None ∧
  is_Some (getHgvsState cachedAlternatives Samples.v300).
Proof. vm_compute. eauto 10. Qed.

(** C2 (amended). For a record whose [hgvs] field is not a blank string,
    [getHgvsKey] is the first entry of the raw [hgvs] field taken as a
    sequence when that sequence is not empty, and the decimal rendering of
    the position otherwise; it is the first entry of [getHgvs] as long as
    the cache holds no alternatives under that key. Two such records with
    the same raw primary name have the same key and share one cache
    entry. *)
Theorem getHgvsKey_raw_primary :
  (∀ v, blankHgvsString v = false →
        getHgvsKey v = primaryOr (rawHgvs v) (v_position v)) ∧
  (∀ c v,
     blankHgvsString v = false →
     (∀ st, hgvsStates c !! getHgvsKey v = Some st → alternatives st = []) →
     getHgvsKey v = primaryOr (getHgvs c v) (v_position v)) ∧
  (∀ c v1 v2 h,
     blankHgvsString v1 = false → blankHgvsString v2 = false →
     head (rawHgvs v1) = Some h → head (rawHgvs v2) = Some h →
     getHgvsKey v1 = getHgvsKey v2 ∧
     getHgvsState c v1 = getHgvsState c v2).
Proof.
  split_and!.
  - apply getHgvsKey_raw.
  - intros c v Hb Hc. rewrite getHgvs_raw by done. by apply getHgvsKey_raw.
  - intros c v1 v2 h Hb1 Hb2 H1 H2.
    assert (getHgvsKey v1 = getHgvsKey v2) as Hk.
    { rewrite !getHgvsKey_raw by done.
      destruct (rawHgvs v1), (rawHgvs v2); simplify_eq/=; done. }
    split; [done |]. unfold getHgvsState. by rewrite Hk.
Qed.

Lemma getHgvsKey_raw_primary_witness :
  getHgvsKey Samples.v300
  = primaryOr (rawHgvs Samples.v300) (v_position Samples.v300).
Proof. apply (proj1 getHgvsKey_raw_primary). reflexivity. Defined.

(** ** Visibility reconciliation *)

Section reconciler.

Implicit Types (c : Component) (v : Variant).

Lemma searchKeeps_ext c c' v :
  searchTerm c' = searchTerm c → hgvsStates c' = hgvsStates c →
  searchKeeps c' v = searchKeeps c v.
Proof.
  intros Hs Hh.
  unfold searchKeeps, effSearch, searchMatches, getHgvs.
  by rewrite Hs, Hh.
Qed.

Lemma array_includes_patientStage v (pf : string) :
  JS.array_includes (getInvolvedPatients v) pf = patientStage pf v.
Proof.
  apply eq_true_iff_eq.
  by rewrite array_includes_elem_of, elem_of_getInvolvedPatients,
    patientStage_involved.
Qed.

Local Ltac reconcile_step :=
  cbn [negb andb orb JS.truthy default from_option id
         updateSearchTerm setFilter setPatientFilter setQualityFilter
         searchTerm filterType filterPatient filterQuality
         filterConsequence variants jobId hgvsAlternatives hgvsStates].

(** What [ensureVariantVisible] computes, dimension by dimension. *)
Lemma ensureVariantVisible_unfold c v :
  ensureVariantVisible c v
  = (mkComponent (variants c) (jobId c) (hgvsAlternatives c)
       (if resetsSearch c v then "" else searchTerm c)
       (if resetsType c v then "All" else filterType c)
       (if resetsPatient c v then "All" else filterPatient c)
       (if resetsConsequence c v then "All" else filterConsequence c)
       (if resetsQuality c v then "All" else filterQuality c)
       (hgvsStates c),
     resetsSearch c v || resetsType c v || resetsPatient c v ||
     resetsQuality c v || resetsConsequence c v).
Proof.
  unfold ensureVariantVisible, resetsSearch, resetsType, resetsPatient,
    resetsQuality, resetsConsequence, searchKeeps, patientKeeps,
    qualityKeeps, consequenceKeeps, effSearch, effPatient, effQuality,
    effConsequence, qualityStage.
  cbn [JS.nullish no_overrides o_patient o_quality o_consequence].
  destruct c as [vs j ha st ft fp fc fq hs].
  cbn [searchTerm filterType filterPatient filterQuality filterConsequence
         variants jobId hgvsAlternatives hgvsStates].
  destruct (String.eqb (JS.trim (JS.toLowerCase st)) "");
    destruct (searchMatches _ (JS.trim (JS.toLowerCase st)) v);
    reconcile_step;
    destruct (String.eqb ft "All");
    destruct (String.eqb (JS.toLowerCase ft) (JS.toLowerCase (v_type v)));
    reconcile_step;
    rewrite ?array_includes_patientStage;
    destruct (String.eqb fp "All");
    destruct (patientStage fp v);
    reconcile_step;
    destruct (String.eqb fq "All");
    destruct (v_filter v) as [f|];
    reconcile_step;
    try destruct (String.eqb f "");
    try destruct (String.eqb f fq);
    reconcile_step;
    destruct (String.eqb fc "All");
    destruct (consequenceStage fc v);
    reflexivity.
Qed.

(** The type test of [ensureVariantVisible] compares the selection with
    'All' before lower-casing it, the type stage of [applyFilters]
    after; the two agree unless the selection is another spelling of
    'all'. *)
Lemma resetsType_typeKeeps c v :
  filterType c = "All" ∨ JS.toLowerCase (filterType c) ≠ "all" →
  resetsType c v = negb (typeKeeps c no_overrides v).
Proof.
  unfold resetsType, typeKeeps, typeStage, effType. simpl.
  rewrite (String.eqb_sym (JS.toLowerCase (v_type v))).
  intros [->|Hne]; [done |].
  apply String.eqb_neq in Hne. rewrite Hne.
  destruct (String.eqb_spec (filterType c) "All") as [Heq|_]; [| done].
  rewrite Heq in Hne. done.
Qed.

(** After the call the record passes every stage, whatever the state
    was. *)
Lemma ensureVariantVisible_passes c v :
  keeps (fst (ensureVariantVisible c v)) no_overrides v = true.
Proof.
  rewrite ensureVariantVisible_unfold. cbn [fst].
  unfold keeps, facetsKeep. rewrite !andb_true_iff. split_and!.
  - unfold resetsQuality, qualityKeeps, effQuality. simpl.
    by destruct (String.eqb (filterQuality c) "All") eqn:E1,
      (qualityStage (filterQuality c) v) eqn:E2; simpl; rewrite ?E1, ?E2.
  - unfold resetsType, typeKeeps, typeStage, effType. simpl.
    rewrite (String.eqb_sym (JS.toLowerCase (v_type v))).
    destruct (String.eqb_spec (filterType c) "All") as [->|_]; [done |].
    simpl. by destruct (String.eqb (JS.toLowerCase (filterType c))
                          (JS.toLowerCase (v_type v))) eqn:E; simpl;
      rewrite ?E, ?orb_true_r.
  - unfold resetsPatient, patientKeeps, effPatient. simpl.
    by destruct (String.eqb (filterPatient c) "All") eqn:E1,
      (patientStage (filterPatient c) v) eqn:E2; simpl; rewrite ?E1, ?E2.
  - unfold resetsConsequence, consequenceKeeps, effConsequence. simpl.
    by destruct (String.eqb (filterConsequence c) "All") eqn:E1,
      (consequenceStage (filterConsequence c) v) eqn:E2; simpl;
      rewrite ?E1, ?E2.
  - unfold resetsSearch. destruct (searchKeeps c v) eqn:E; simpl.
    + rewrite <- E. by apply searchKeeps_ext.
    + reflexivity.
Qed.

(** Minimal relaxation, for a type selection that is 'All' itself or no
    spelling of it: a dimension is reset iff its stage excludes the
    record, every other field is left as it was, and the result says
    whether a dimension was reset. *)
Lemma ensureVariantVisible_minimal c v :
  filterType c = "All" ∨ JS.toLowerCase (filterType c) ≠ "all" →
  ensureVariantVisible c v
  = (mkComponent (variants c) (jobId c) (hgvsAlternatives c)
       (if searchKeeps c v then searchTerm c else "")
       (if typeKeeps c no_overrides v then filterType c else "All")
       (if patientKeeps c no_overrides v then filterPatient c else "All")
       (if consequenceKeeps c no_overrides v
        then filterConsequence c else "All")
       (if qualityKeeps c no_overrides v then filterQuality c else "All")
       (hgvsStates c),
     negb (keeps c no_overrides v)).
Proof.
  intros Ht. rewrite ensureVariantVisible_unfold.
  rewrite (resetsType_typeKeeps c v Ht).
  unfold resetsSearch, resetsPatient, resetsQuality, resetsConsequence,
    keeps, facetsKeep.
  by destruct (searchKeeps c v), (typeKeeps c no_overrides v),
    (patientKeeps c no_overrides v), (qualityKeeps c no_overrides v),
    (consequenceKeeps c no_overrides v).
Qed.

Lemma ensureVariantVisible_visible_unchanged c v :
  filterType c = "All" ∨ JS.toLowerCase (filterType c) ≠ "all" →
  keeps c no_overrides v = true →
  ensureVariantVisible c v = (c, false).
Proof.
  intros Ht Hk. rewrite ensureVariantVisible_minimal, Hk by done.
  unfold keeps, facetsKeep in Hk. rewrite !andb_true_iff in Hk.
  destruct Hk as [[[[-> ->] ->] ->] ->]. by destruct c.
Qed.

End reconciler.

(** C3 (failing input). Under the type selection 'all' the type stage of
    [applyFilters] is inactive and the record at position 100, of type
    'SNV', is in the filtered list: no stage excludes it. Yet
    [ensureVariantVisible] resets the type selection and reports a
    change. *)
Lemma ensureVariantVisible_resets_lowercase_all :
  applyFilters lowercaseAll no_overrides = [Samples.v100; Samples.v500] ∧
  keeps lowercaseAll no_overrides Samples.v100 = true ∧
  ensureVariantVisible lowercaseAll Samples.v100
  = (setFilter "All" lowercaseAll, true).
Proof. vm_compute. done. Qed.

(** ** The annotation fetch *)

(** *** Splitting at the colon *)

Section split_colon.

Implicit Types (sep : ascii) (s : string).

Lemma split_nonempty sep s : JS.split sep s ≠ [].
Proof.
  destruct s as [|c s]; simpl; [done |].
  destruct (Ascii.eqb c sep); [done |]. by destruct (JS.split sep s).
Qed.

Lemma split_length_lt2 sep s :
  (length (JS.split sep s) <? 2)%nat = negb (hasChar sep s).
Proof.
  induction s as [|c s IH]; simpl; [done |].
  pose proof (split_nonempty sep s) as Hne.
  destruct (Ascii.eqb c sep); simpl.
  - by destruct (JS.split sep s).
  - rewrite <- IH. by destruct (JS.split sep s).
Qed.

Lemma hasChar_occurs sep s :
  hasChar sep s = true ↔ occurs (String sep "") s.
Proof.
  split.
  - induction s as [|c s IH]; simpl; [done |].
    rewrite orb_true_iff. intros [Hc|Hs].
    + apply Ascii.eqb_eq in Hc as ->. by exists "", s.
    + destruct (IH Hs) as (pre & post & ->). by exists (String c pre), post.
  - intros (pre & post & ->). induction pre as [|a pre IH].
    + rewrite app_nil_l, app_cons_l. simpl. by rewrite Ascii.eqb_refl.
    + rewrite app_cons_l. simpl. rewrite IH. apply orb_true_r.
Qed.

Lemma split_head sep s :
  hasChar sep s = true →
  ∃ rest, s = hd "" (JS.split sep s) +:+ String sep rest ∧
          hasChar sep (hd "" (JS.split sep s)) = false.
Proof.
  induction s as [|c s IH]; simpl; [done |].
  destruct (Ascii.eqb_spec c sep) as [->|Hc]; simpl.
  - intros _. by exists s.
  - intros Hs. destruct (IH Hs) as (rest & Heq & Hh).
    pose proof (split_nonempty sep s) as Hne.
    destruct (JS.split sep s) as [|h t]; [done |]. simpl in *.
    exists rest. split; [by rewrite app_cons_l, <- Heq |].
    by rewrite (proj2 (Ascii.eqb_neq _ _) Hc).
Qed.

End split_colon.

(** *** The synchronous part of a fetch *)

Section fetch.

Import Fetch.
Implicit Types (c : Component) (v : Variant) (svc : Service).

Lemma fetchFrom_skipped c v : fetchSkipped c v → fetchFrom v c = Done.
Proof.
  intros Hskip. unfold fetchFrom. cbv zeta.
  destruct Hskip as [Hlen|[Hnil|(primary & Hhd & Hcolon)]].
  - by rewrite (proj2 (Nat.ltb_lt _ _) Hlen).
  - by rewrite Hnil.
  - destruct (getHgvs c v) as [|p l]; [done |]. injection Hhd as ->.
    destruct (1 <? length (primary :: l))%nat; [done |].
    rewrite split_length_lt2.
    destruct (hasChar ":" primary) eqn:Hh; [| done].
    by apply hasChar_occurs in Hh.
Qed.

Lemma fetchFrom_issued c v primary :
  getHgvs c v = [primary] → occurs ":" primary →
  fetchFrom v c
  = UpdateStates (setEntry (getHgvsKey v) pendingState)
      (AwaitLookup (hd "" (JS.split ":" primary)) (v_position v) (v_ref v)
         (v_alt v) (afterLookup (getHgvsKey v) primary)).
Proof.
  intros Hcur Hcolon. unfold fetchFrom. cbv zeta.
  rewrite Hcur. change (1 <? length [primary])%nat with false.
  rewrite split_length_lt2.
  by rewrite (proj2 (hasChar_occurs ":" primary) Hcolon).
Qed.

Lemma not_fetchSkipped c v :
  ¬ fetchSkipped c v → ∃ primary, getHgvs c v = [primary] ∧ occurs ":" primary.
Proof.
  unfold fetchSkipped. intros Hn.
  destruct (getHgvs c v) as [|primary [|p l]].
  - destruct Hn. by right; left.
  - exists primary. split; [done |].
    destruct (hasChar ":" primary) eqn:Hh; [by apply hasChar_occurs |].
    destruct Hn. right; right. exists primary. split; [done |].
    rewrite <- hasChar_occurs. by rewrite Hh.
  - destruct Hn. left. simpl. lia.
Qed.

(** C8. When the resolved sequence has more than one entry, is empty, or
    starts with a name without colon, [fetchHgvsAlternatives] returns at
    once: no call is issued and the component is left as it was. Otherwise
    the entry of the record's key is set to the pending state, and only
    then the lookup is issued for the text before the first colon: the
    component that the suspended method leaves behind holds the pending
    state under the key. *)
Theorem fetch_sync_pending c v :
  (fetchSkipped c v →
   runSync (fetchHgvsAlternatives v) c = (c, [], None) ∧
   ∀ svc, run svc (fetchHgvsAlternatives v) c = (c, [])) ∧
  (¬ fetchSkipped c v →
   ∃ primary transcript rest,
     getHgvs c v = [primary] ∧
     primary = transcript +:+ ":" +:+ rest ∧ ¬ occurs ":" transcript ∧
     runSync (fetchHgvsAlternatives v) c
     = (setHgvsStates (<[getHgvsKey v := pendingState]> (hgvsStates c)) c,
        [EvStates (<[getHgvsKey v := pendingState]> (hgvsStates c));
         EvLookup transcript (v_position v) (v_ref v) (v_alt v)],
        Some (PendingLookup transcript (v_position v) (v_ref v) (v_alt v)
                (afterLookup (getHgvsKey v) primary))) ∧
     hgvsStates (runSync (fetchHgvsAlternatives v) c).1.1 !! getHgvsKey v
     = Some pendingState).
Proof.
  split.
  - intros Hskip. unfold fetchHgvsAlternatives. cbn [runSync run].
    by rewrite fetchFrom_skipped.
  - intros Hn. destruct (not_fetchSkipped c v Hn) as (primary & Hcur & Hcolon).
    destruct (split_head ":" primary) as (rest & Hsplit & Hhead);
      [by apply hasChar_occurs |].
    exists primary, (hd "" (JS.split ":" primary)), rest.
    assert (runSync (fetchHgvsAlternatives v) c
            = (setHgvsStates (<[getHgvsKey v := pendingState]> (hgvsStates c)) c,
               [EvStates (<[getHgvsKey v := pendingState]> (hgvsStates c));
                EvLookup (hd "" (JS.split ":" primary)) (v_position v)
                  (v_ref v) (v_alt v)],
               Some (PendingLookup (hd "" (JS.split ":" primary))
                       (v_position v) (v_ref v) (v_alt v)
                       (afterLookup (getHgvsKey v) primary)))) as Hrun.
    { unfold fetchHgvsAlternatives. cbn [runSync].
      by rewrite (fetchFrom_issued c v primary). }
    split_and!; [done | done | | done |].
    + rewrite <- hasChar_occurs. by rewrite Hhead.
    + rewrite Hrun. apply lookup_insert_eq.
Qed.

Lemma fetch_sync_pending_witness :
  runSync (fetchHgvsAlternatives Samples.v100)
    (Samples.neutral [Samples.v100])
  = (Samples.neutral [Samples.v100], [], None).
Proof.
  apply (proj1 (fetch_sync_pending (Samples.neutral [Samples.v100])
                  Samples.v100)).
  right; left. reflexivity.
Defined.

Example fetch_sync_pending_v300 :
  runSync (fetchHgvsAlternatives Samples.v300)
    (Samples.neutral [Samples.v300])
  = (setHgvsStates {[ "NM_000546.6:c.215C>G" := pendingState ]}
       (Samples.neutral [Samples.v300]),
     [EvStates {[ "NM_000546.6:c.215C>G" := pendingState ]};
      EvLookup "NM_000546.6" 300 "A" "G"],
     Some (PendingLookup "NM_000546.6" 300 "A" "G"
             (afterLookup "NM_000546.6:c.215C>G" "NM_000546.6:c.215C>G"))).
Proof. reflexivity. Qed.

(** *** Outcome of the save-back *)

(** C4 (failing input). A view of a job holds one record with a single
    name; the lookup of its alternatives succeeds and the save-back is
    rejected. The success state with the two alternatives is applied and
    announced, the save-back is issued, and then the [catch] block runs:
    the entry of the key ends in the error state without alternatives,
    where the claim has it keep the success state. On the sibling path
    (the same view without job id, so that nothing is saved) the entry
    ends in the success state. *)
Theorem save_failure_overwrites_success :
  let key := "NM_000546.6:c.215C>G" in
  let alts := ["ENST00000269305.9:c.215C>G"; "NM_000546.6:c.215C>G"] in
  let m1 := {[ key := pendingState ]} in
  let m2 := {[ key := successState alts ]} in
  let m3 := {[ key := errorState ]} in
  getHgvsKey Samples.v300 = key ∧
  getHgvsAlternatives saveFails "NM_000546.6" 300 "A" "G" = Some alts ∧
  addJobHgvsAlternatives saveFails "job-1" key alts = false ∧
  (run saveFails (fetchHgvsAlternatives Samples.v300) jobView).2
  = [EvStates m1; EvLookup "NM_000546.6" 300 "A" "G"; EvStates m2;
     EvToast "Alternatives received" "success";
     EvPersist "job-1" key alts; EvConsoleError; EvStates m3] ∧
  hgvsStates (run saveFails (fetchHgvsAlternatives Samples.v300) jobView).1
    !! key
  = Some (mkHgvsState false true []) ∧
  hgvsStates
    (run saveFails (fetchHgvsAlternatives Samples.v300)
       (Samples.neutral [Samples.v300])).1 !! key
  = Some (mkHgvsState false false alts).
Proof. vm_compute. done. Qed.

(** What the code does with the outcome of the save-back. When the lookup
    succeeds and a job id is present, the success state is applied and
    announced, then the save-back is issued; if it is rejected the [catch]
    block that serves the lookup runs and the entry of the key is
    overwritten with the error state without alternatives; the entry keeps
    the success state only if the save-back is accepted. *)
Theorem fetch_save_outcome svc c v (primary jId : string)
    (alts : list string) :
  getHgvs c v = [primary] → occurs ":" primary →
  getHgvsAlternatives svc (hd "" (JS.split ":" primary)) (v_position v)
    (v_ref v) (v_alt v) = Some alts →
  jobId c = Some jId → jId ≠ "" →
  let key := getHgvsKey v in
  let ok := addJobHgvsAlternatives svc jId primary alts in
  let m1 := <[key := pendingState]> (hgvsStates c) in
  let m2 := <[key := successState alts]> m1 in
  let m3 := <[key := errorState]> m2 in
  run svc (fetchHgvsAlternatives v) c
  = (setHgvsStates (if ok then m2 else m3) c,
     ([EvStates m1;
       EvLookup (hd "" (JS.split ":" primary)) (v_position v) (v_ref v)
         (v_alt v);
       EvStates m2;
       EvToast "Alternatives received" "success";
       EvPersist jId primary alts] ++
      (if ok then [] else [EvConsoleError; EvStates m3]))%list) ∧
  hgvsStates (run svc (fetchHgvsAlternatives v) c).1 !! key
  = Some (if ok then successState alts else errorState).
Proof.
  intros Hcur Hcolon Hlookup Hjob HjId key ok m1 m2 m3.
  assert (run svc (fetchHgvsAlternatives v) c
          = (setHgvsStates (if ok then m2 else m3) c,
             ([EvStates m1;
               EvLookup (hd "" (JS.split ":" primary)) (v_position v)
                 (v_ref v) (v_alt v);
               EvStates m2;
               EvToast "Alternatives received" "success";
               EvPersist jId primary alts] ++
              (if ok then [] else [EvConsoleError; EvStates m3]))%list))
    as Hrun.
  { unfold fetchHgvsAlternatives. cbn [run].
    rewrite (fetchFrom_issued c v primary) by done.
    cbn [run]. rewrite Hlookup.
    cbn [afterLookup run setHgvsStates jobId hgvsStates].
    rewrite Hjob. cbn [JS.truthy default from_option id].
    rewrite (proj2 (String.eqb_neq _ _) HjId).
    cbn [negb run]. fold ok. unfold onError, setEntry.
    destruct ok; reflexivity. }
  split; [exact Hrun |].
  rewrite Hrun. cbn [fst setHgvsStates hgvsStates].
  destruct ok; apply lookup_insert_eq.
Qed.

Lemma fetch_save_outcome_witness :
  hgvsStates (run saveFails (fetchHgvsAlternatives Samples.v300) jobView).1
    !! getHgvsKey Samples.v300
  = Some errorState.
Proof.
  apply (fetch_save_outcome saveFails jobView Samples.v300
           "NM_000546.6:c.215C>G" "job-1"
           ["ENST00000269305.9:c.215C>G"; "NM_000546.6:c.215C>G"]).
  - reflexivity.
  - exists "NM_000546.6", "c.215C>G". reflexivity.
  - reflexivity.
  - reflexivity.
  - discriminate.
Defined.

(** Without a job id nothing is saved and the success state stays. *)
Lemma fetch_without_job svc c v (primary : string) (alts : list string) :
  getHgvs c v = [primary] → occurs ":" primary →
  getHgvsAlternatives svc (hd "" (JS.split ":" primary)) (v_position v)
    (v_ref v) (v_alt v) = Some alts →
  JS.truthy (jobId c) = false →
  hgvsStates (run svc (fetchHgvsAlternatives v) c).1 !! getHgvsKey v
  = Some (successState alts).
Proof.
  intros Hcur Hcolon Hlookup Hjob.
  unfold fetchHgvsAlternatives. cbn [run].
  rewrite (fetchFrom_issued c v primary) by done.
  cbn [run]. rewrite Hlookup.
  cbn [afterLookup run setHgvsStates jobId hgvsStates].
  rewrite Hjob. cbn [run fst hgvsStates]. apply lookup_insert_eq.
Qed.

(** A rejected lookup leaves the error state. *)
Lemma fetch_lookup_failure svc c v (primary : string) :
  getHgvs c v = [primary] → occurs ":" primary →
  getHgvsAlternatives svc (hd "" (JS.split ":" primary)) (v_position v)
    (v_ref v) (v_alt v) = None →
  hgvsStates (run svc (fetchHgvsAlternatives v) c).1 !! getHgvsKey v
  = Some errorState.
Proof.
  intros Hcur Hcolon Hlookup.
  unfold fetchHgvsAlternatives. cbn [run].
  rewrite (fetchFrom_issued c v primary) by done.
  cbn [run]. rewrite Hlookup.
  cbn [afterLookup onError run setHgvsStates hgvsStates fst].
  apply lookup_insert_eq.
Qed.

End fetch.

(** ** A session of the view *)

Section session.

Import Fetch.
Implicit Types (c : Component) (v : Variant) (key k : string).

Lemma onError_onlySets key : onlySets key (onError key).
Proof. unfold onError. repeat constructor. Qed.

Lemma fetch_onlySets v :
  onlySets (getHgvsKey v) (fetchHgvsAlternatives v).
Proof.
  unfold fetchHgvsAlternatives. constructor. intros c.
  unfold fetchFrom. cbv zeta.
  destruct (1 <? length (getHgvs c v))%nat; [constructor |].
  destruct (getHgvs c v) as [|primary l]; [constructor |].
  destruct (length (JS.split ":" primary) <? 2)%nat; [constructor |].
  do 2 constructor. intros [alternatives|]; [| apply onError_onlySets].
  do 3 constructor. intros c'.
  destruct (JS.truthy (jobId c')); [| constructor].
  constructor. intros [|]; [constructor | apply onError_onlySets].
Qed.

(** What a method that only sets [key] does to the component up to its
    next suspension. *)
Lemma runSync_onlySets key (p : Prog) c :
  onlySets key p →
  (∀ k, k ≠ key →
        hgvsStates (runSync p c).1.1 !! k = hgvsStates c !! k) ∧
  (∀ k, is_Some (hgvsStates c !! k) →
        is_Some (hgvsStates (runSync p c).1.1 !! k)) ∧
  (∀ pd, (runSync p c).2 = Some pd → pendingOnlySets key pd).
Proof.
  intros Hp. revert c.
  induction Hp as [|f Hf IH|st p Hp IH|message kind p Hp IH|p Hp IH
                  |t pos r a f Hf IH|j pr al f Hf IH]; intros c; cbn [runSync].
  - by split_and!.
  - apply IH.
  - specialize (IH (setHgvsStates (setEntry key st (hgvsStates c)) c)).
    destruct (runSync p _) as [[c' evs] pd]. cbn [fst snd] in *.
    destruct IH as (Hother & Hdom & Hpd). split_and!; [| | done].
    + intros k Hk. rewrite Hother by done. unfold setEntry. simpl.
      by rewrite lookup_insert_ne.
    + intros k Hk. apply Hdom. unfold setEntry. simpl.
      rewrite lookup_insert. case_decide; [by eexists | done].
  - specialize (IH c). by destruct (runSync p c) as [[c' evs] pd].
  - specialize (IH c). by destruct (runSync p c) as [[c' evs] pd].
  - split_and!; [done | done |]. by intros pd [= <-].
  - split_and!; [done | done |]. by intros pd [= <-].
Qed.

Lemma suspended_comp v (r : Component * list Event * option Pending)
    (others : list InFlight) :
  comp (suspended v r others) = r.1.1.
Proof. by destruct r as [[c evs] [pd|]]. Qed.

Lemma suspended_inflightOwnKey v (r : Component * list Event * option Pending)
    (others : list InFlight) :
  Forall (λ f, pendingOnlySets (getHgvsKey (inflVariant f)) (inflPending f))
    others →
  (∀ pd, r.2 = Some pd → pendingOnlySets (getHgvsKey v) pd) →
  inflightOwnKey (suspended v r others).
Proof.
  intros Ho Hr. destruct r as [[c evs] [pd|]]; unfold inflightOwnKey; simpl;
    [| done].
  apply Forall_app. split; [done |]. constructor; [| constructor].
  by apply Hr.
Qed.

Lemma Forall_delete_list {A} (P : A → Prop) (l : list A) (i : nat) :
  Forall P l → Forall P (delete i l).
Proof.
  intros H. revert i. induction H as [|x l Hx Hl IH]; intros [|i]; simpl;
    [constructor | constructor | done |].
  constructor; [done | apply IH].
Qed.

Lemma step_inflightOwnKey (a : Action) (s : Session) :
  inflightOwnKey s → inflightOwnKey (step a s).
Proof.
  intros Hs. destruct a as [vs alts|j|term|type|patient|consequence|quality
                           |v|v|i r|i ok]; try exact Hs.
  - apply suspended_inflightOwnKey; [exact Hs |].
    apply (runSync_onlySets _ _ _ (fetch_onlySets v)).
  - cbn [step]. destruct (inflight s !! i) as [[v [t pos rf al f|j pr al f]]|]
      eqn:Hi; try exact Hs.
    apply suspended_inflightOwnKey; [by apply Forall_delete_list |].
    apply runSync_onlySets.
    eapply Forall_lookup_1 in Hi; [| exact Hs]. apply Hi.
  - cbn [step]. destruct (inflight s !! i) as [[v [t pos rf al f|j pr al f]]|]
      eqn:Hi; try exact Hs.
    apply suspended_inflightOwnKey; [by apply Forall_delete_list |].
    apply runSync_onlySets.
    eapply Forall_lookup_1 in Hi; [| exact Hs]. apply Hi.
Qed.

Lemma reachable_inflightOwnKey (s : Session) :
  reachable s → inflightOwnKey s.
Proof.
  induction 1 as [vs alts j|a s Hs IH]; [constructor |].
  by apply step_inflightOwnKey.
Qed.

(** The seeding loop of the effect builds one idle entry per persisted
    key. *)
Lemma seed_lookup (l : list (string * list string))
    (m0 : gmap string HgvsState) k :
  NoDup l.*1 →
  fold_left (λ m '(key, alts), <[key := mkHgvsState false false alts]> m) l m0
    !! k
  = match (list_to_map l : gmap string (list string)) !! k with
    | Some alts => Some (mkHgvsState false false alts)
    | None => m0 !! k
    end.
Proof.
  revert m0. induction l as [|[k1 a1] l IH]; intros m0 Hnd; simpl; [done |].
  apply NoDup_cons in Hnd as [Hk1 Hnd]. rewrite IH by done.
  destruct (decide (k = k1)) as [->|Hne].
  - rewrite lookup_insert_eq.
    rewrite (not_elem_of_list_to_map_1 _ _ Hk1). by rewrite lookup_insert_eq.
  - by rewrite !lookup_insert_ne.
Qed.

Lemma effect_body_states c :
  hgvsStates (effect_body c)
  = mkHgvsState false false <$> hgvsAlternatives c.
Proof.
  unfold effect_body. cbv zeta.
  match goal with
  | |- hgvsStates (if ?b then _ else _) = _ => destruct b
  end; cbn [hgvsStates setQualityFilter setHgvsStates];
    apply map_eq; intros k;
    rewrite seed_lookup by apply NoDup_fst_map_to_list;
    rewrite list_to_map_to_list, lookup_fmap, lookup_empty;
    by destruct (hgvsAlternatives c !! k).
Qed.

(** An action other than a change of the inputs leaves the entries of the
    keys it is no fetch for, and removes no key. *)
Lemma step_preserves_entries (a : Action) (s : Session) :
  inflightOwnKey s →
  (∀ vs alts, a ≠ ActInputs vs alts) →
  (∀ k, ¬ fetchFor k s a →
        hgvsStates (comp (step a s)) !! k = hgvsStates (comp s) !! k) ∧
  (∀ k, is_Some (hgvsStates (comp s) !! k) →
        is_Some (hgvsStates (comp (step a s)) !! k)).
Proof.
  intros Hs Ha.
  destruct a as [vs alts|j|term|type|patient|consequence|quality
                |v|v|i r|i ok]; cbn [step comp fetchFor].
  - by destruct (Ha vs alts).
  - done.
  - done.
  - done.
  - done.
  - done.
  - done.
  - by rewrite ensureVariantVisible_unfold.
  - rewrite suspended_comp.
    destruct (runSync_onlySets _ _ (comp s) (fetch_onlySets v))
      as (Hother & Hdom & _).
    split; [| done]. intros k Hk. apply Hother. congruence.
  - destruct (inflight s !! i) as [[v [t pos rf al f|j pr al f]]|] eqn:Hi;
      [| done | done].
    rewrite suspended_comp.
    eapply Forall_lookup_1 in Hs; [| exact Hi]. simpl in Hs.
    destruct (runSync_onlySets _ _ (comp s) (Hs r)) as (Hother & Hdom & _).
    split; [| done]. intros k Hk. apply Hother. intros ->.
    apply Hk. by eexists.
  - destruct (inflight s !! i) as [[v [t pos rf al f|j pr al f]]|] eqn:Hi;
      [done | | done].
    rewrite suspended_comp.
    eapply Forall_lookup_1 in Hs; [| exact Hi]. simpl in Hs.
    destruct (runSync_onlySets _ _ (comp s) (Hs ok)) as (Hother & Hdom & _).
    split; [| done]. intros k Hk. apply Hother. intros ->.
    apply Hk. by eexists.
Qed.

(** C5 (counterexample). After a fetch has stored alternatives under the
    key of [v300], a refresh of the variant list runs the effect again and
    the entry is gone, though the refresh is no fetch. *)
Lemma refresh_evicts_fetched_entry :
  reachable fetchedSession ∧
  hgvsStates (comp fetchedSession) !! "NM_000546.6:c.215C>G"
  = Some (successState ["ENST00000269305.9:c.215C>G"]) ∧
  ¬ fetchFor "NM_000546.6:c.215C>G" fetchedSession
      (ActInputs [Samples.v300; Samples.v100] ∅) ∧
  hgvsStates
    (comp (step (ActInputs [Samples.v300; Samples.v100] ∅) fetchedSession))
    !! "NM_000546.6:c.215C>G"
  = None.
Proof.
  split_and!.
  - do 2 apply reachable_step. apply reachable_initial.
  - vm_compute. done.
  - intros [].
  - vm_compute. done.
Qed.

(** C5 (amended). Every run of the constructor effect, at load and at each
    change of the inputs it reads, replaces the cache map by one idle entry
    per persisted key. Between two runs no action other than a fetch for
    the same key removes or replaces an existing entry, and no action
    removes a key: entries accumulate until the effect runs again. *)
Theorem cache_entries_between_effects (s : Session) (a : Action) :
  reachable s →
  (∀ vs alts, a = ActInputs vs alts →
     hgvsStates (comp (step a s)) = mkHgvsState false false <$> alts) ∧
  ((∀ vs alts, a ≠ ActInputs vs alts) →
     (∀ k e, hgvsStates (comp s) !! k = Some e → ¬ fetchFor k s a →
             hgvsStates (comp (step a s)) !! k = Some e) ∧
     (∀ k, is_Some (hgvsStates (comp s) !! k) →
           is_Some (hgvsStates (comp (step a s)) !! k))).
Proof.
  intros Hs%reachable_inflightOwnKey. split.
  - intros vs alts ->. cbn [step comp]. by rewrite effect_body_states.
  - intros Ha. destruct (step_preserves_entries a s Hs Ha) as [Hother Hdom].
    split; [| done]. intros k e He Hk. by rewrite Hother.
Qed.

Lemma cache_entries_between_effects_witness :
  hgvsStates (comp (step (ActSetFilter "SNV") fetchedSession))
    !! "NM_000546.6:c.215C>G"
  = Some (successState ["ENST00000269305.9:c.215C>G"]).
Proof.
  apply (proj2 (cache_entries_between_effects fetchedSession
                  (ActSetFilter "SNV")
                  (reachable_step _ _ (reachable_step _ _
                     (reachable_initial [Samples.v300] ∅ None))))).
  - discriminate.
  - reflexivity.
  - intros [].
Defined.

(** The initial map is the seed as well. *)
Lemma initial_states (vs : list Variant) (alts : gmap string (list string))
    (j : option string) :
  hgvsStates (comp (initial vs alts j)) = mkHgvsState false false <$> alts.
Proof. unfold initial. cbn [comp]. by rewrite effect_body_states. Qed.

End session.

(** * Further properties of the component *)

(** ** Reversal and trimming *)

Section trimming.

Implicit Types (s t : string).

Lemma app_nil_r s : s +:+ "" = s.
Proof. induction s as [|a s IH]; [done |]. by rewrite app_cons_l, IH. Qed.

Lemma app_assoc_str s1 s2 s3 : (s1 +:+ s2) +:+ s3 = s1 +:+ (s2 +:+ s3).
Proof.
  induction s1 as [|a s1 IH]; [done |]. by rewrite !app_cons_l, IH.
Qed.

Lemma rev_app_app s1 s2 s3 :
  String.rev_app s1 s2 +:+ s3 = String.rev_app s1 (s2 +:+ s3).
Proof.
  revert s2. induction s1 as [|a s1 IH]; intros s2; simpl; [done |].
  by rewrite IH.
Qed.

Lemma rev_app_append s1 s2 t :
  String.rev_app (s1 +:+ s2) t = String.rev_app s2 (String.rev_app s1 t).
Proof.
  revert t. induction s1 as [|a s1 IH]; intros t; [done |].
  rewrite app_cons_l. simpl. by rewrite IH.
Qed.

Lemma rev_app_rev_app s1 s2 s3 :
  String.rev_app (String.rev_app s1 s2) s3 = String.rev_app s2 (s1 +:+ s3).
Proof.
  revert s2 s3. induction s1 as [|a s1 IH]; intros s2 s3; simpl; [done |].
  by rewrite IH.
Qed.

Lemma rev_rev s : String.rev (String.rev s) = s.
Proof.
  unfold String.rev. rewrite rev_app_rev_app. simpl. apply app_nil_r.
Qed.

Lemma trimStart_suffix s : ∃ pre, s = pre +:+ JS.trimStart s.
Proof.
  induction s as [|a s [pre IH]]; simpl; [by exists "" |].
  destruct (Ascii.is_space a); [| by exists ""].
  exists (String a pre). by rewrite app_cons_l, <- IH.
Qed.

Lemma trimEnd_prefix s : ∃ post, s = JS.trimEnd s +:+ post.
Proof.
  unfold JS.trimEnd.
  destruct (trimStart_suffix (String.rev s)) as [pre Hpre].
  exists (String.rev pre).
  rewrite <- (rev_rev s) at 1. rewrite Hpre at 1.
  unfold String.rev. by rewrite rev_app_append, rev_app_app.
Qed.

(** The trimmed string is a substring of the string. *)
Lemma occurs_trim s : occurs (JS.trim s) s.
Proof.
  unfold JS.trim.
  destruct (trimStart_suffix s) as [pre Hpre].
  destruct (trimEnd_prefix (JS.trimStart s)) as [post Hpost].
  exists pre, post. by rewrite <- Hpost.
Qed.

End trimming.

(** ** Searching for a text of the record *)

Section search_own_text.

Implicit Types (c : Component) (o : Overrides) (v : Variant) (t : string).

Lemma searchKeeps_own_text c v t :
  searchableText c v t → searchKeeps (updateSearchTerm t c) v = true.
Proof.
  intros Ht. unfold searchKeeps.
  destruct (String.eqb (effSearch (updateSearchTerm t c)) "") eqn:E;
    [done |].
  simpl. apply searchMatches_occurs.
  change (effSearch (updateSearchTerm t c))
    with (JS.trim (JS.toLowerCase t)).
  destruct Ht as [->|[->|[Hinv|Hh]]].
  - left. apply occurs_trim.
  - right; left. rewrite lower_toString. apply occurs_trim.
  - do 2 right; left. exists t. split; [done | apply occurs_trim].
  - do 3 right. exists t. split; [done | apply occurs_trim].
Qed.

Lemma getVariantName_searchable c v : searchableText c v (getVariantName c v).
Proof.
  unfold getVariantName, searchableText.
  destruct (getHgvs c v) as [|h l]; [by left |].
  do 3 right. constructor.
Qed.

End search_own_text.

(** X1. When the search term is set to one of the searchable texts of a
    record in full (in any case, with or without white space around it),
    the search stage keeps the record, so the record is in the filtered
    list as soon as it is in the input and passes the facet stages; this
    holds for the name that [getVariantName] displays. *)
Theorem search_finds_own_text (c : Component) (o : Overrides) (v : Variant)
    (t : string) :
  searchableText c v t →
  searchKeeps (updateSearchTerm t c) v = true ∧
  (v ∈ variants c → facetsKeep c o v = true →
   v ∈ applyFilters (updateSearchTerm t c) o) ∧
  searchKeeps (updateSearchTerm (getVariantName c v) c) v = true.
Proof.
  intros Ht. split_and!.
  - by apply searchKeeps_own_text.
  - intros Hv Hf. apply elem_of_applyFilters. split; [done |].
    unfold keeps. rewrite searchKeeps_own_text by done.
    change (facetsKeep (updateSearchTerm t c) o v) with (facetsKeep c o v).
    by rewrite Hf.
  - apply searchKeeps_own_text, getVariantName_searchable.
Qed.

Lemma search_finds_own_text_witness :
  searchKeeps
    (updateSearchTerm "P2" (Samples.neutral [Samples.v300])) Samples.v300
  = true.
Proof.
  apply (search_finds_own_text (Samples.neutral [Samples.v300]) no_overrides
           Samples.v300 "P2").
  do 2 right; left. right.
  eexists _, (Samples.mk 300 "SNV" "P2" None None HgvsAbsent None).
  split; [reflexivity |]. split; [constructor | reflexivity].
Defined.

(** ** Comments *)

(** X2. Two records have the same comment key iff they are at the same
    position. *)
Theorem getCommentKey_position (v1 v2 : Variant) :
  getCommentKey v1 = getCommentKey v2 ↔ v_position v1 = v_position v2.
Proof.
  unfold getCommentKey, JS.toString. split; [| by intros ->].
  apply (inj pretty).
Qed.

(** X3. Toggling the comments of a key twice restores the view; one toggle
    flips the key, leaves every other key as it was and leaves the drafts
    alone. *)
Theorem toggleComments_involution (key : string) (ui : CommentUi) :
  toggleComments key (toggleComments key ui) = ui ∧
  (key ∈ expandedComments (toggleComments key ui) ↔
   key ∉ expandedComments ui) ∧
  (∀ k, k ≠ key →
        (k ∈ expandedComments (toggleComments key ui) ↔
         k ∈ expandedComments ui)) ∧
  newCommentText (toggleComments key ui) = newCommentText ui.
Proof.
  destruct ui as [e m]. unfold toggleComments. cbn.
  destruct (decide (key ∈ e)) as [Hin|Hnin].
  - rewrite (bool_decide_eq_true_2 _ Hin).
    rewrite bool_decide_eq_false_2 by (set_unfold; intuition congruence).
    split_and!; [| (set_unfold; intuition congruence) | (set_unfold; intuition congruence) | done].
    f_equal. apply set_eq. intros x.
    destruct (decide (x = key)) as [->|Hx]; (set_unfold; intuition congruence).
  - rewrite (bool_decide_eq_false_2 _ Hnin).
    rewrite bool_decide_eq_true_2 by (set_unfold; intuition congruence).
    split_and!; [| (set_unfold; intuition congruence) | (set_unfold; intuition congruence) | done].
    f_equal. (set_unfold; intuition congruence).
Qed.

(** X4. [submitComment] emits the trimmed draft and empties it when the
    draft of the key is not blank; with no draft or a blank one it emits
    nothing and changes nothing. The emitted comment is not empty, the
    other drafts are left alone, and a second call right after emits
    nothing and changes nothing. *)
Theorem submitComment_once (key : string) (ui : CommentUi) :
  (∀ text,
     newCommentText ui !! key = Some text → blank text = false →
     submitComment key ui
     = (updateNewCommentText key "" ui, Some (key, JS.trim text)) ∧
     JS.trim text ≠ "") ∧
  ((∀ text, newCommentText ui !! key = Some text → blank text = true) →
   submitComment key ui = (ui, None)) ∧
  (∀ k, k ≠ key →
        newCommentText (submitComment key ui).1 !! k
        = newCommentText ui !! k) ∧
  submitComment key (submitComment key ui).1 = ((submitComment key ui).1, None).
Proof.
  assert (∀ text, blank text = false → String.eqb text "" = false) as Hne.
  { intros text Hb. apply String.eqb_neq. by intros ->. }
  assert (∀ text, String.eqb (JS.trim text) "" = blank text) as Htrim.
  { intros text. apply eq_true_iff_eq.
    by rewrite String.eqb_eq, trim_empty_iff. }
  split_and!.
  - intros text Ht Hb. unfold submitComment. cbv zeta.
    rewrite Ht. simpl. rewrite Hne, Htrim, Hb by done. simpl.
    split; [done |]. rewrite trim_empty_iff. by rewrite Hb.
  - intros Hblank. unfold submitComment. cbv zeta.
    destruct (newCommentText ui !! key) as [text|] eqn:Ht; simpl; [| done].
    by rewrite Htrim, (Hblank text eq_refl), andb_false_r.
  - intros k Hk. unfold submitComment. cbv zeta.
    destruct (_ && _); simpl; [| done]. by rewrite lookup_insert_ne.
  - unfold submitComment at 2 3. cbv zeta.
    destruct (_ && _) eqn:E; simpl.
    + unfold submitComment. cbv zeta. simpl.
      by rewrite lookup_insert_eq.
    + unfold submitComment. cbv zeta. by rewrite E.
Qed.

Lemma submitComment_once_witness :
  submitComment "100" (drafts {[ "100" := "  benign  " ]})
  = (updateNewCommentText "100" "" (drafts {[ "100" := "  benign  " ]}),
     Some ("100", JS.trim "  benign  ")) ∧
  JS.trim "  benign  " ≠ "".
Proof.
  apply (proj1 (submitComment_once "100"
                  (drafts {[ "100" := "  benign  " ]}))).
  - reflexivity.
  - reflexivity.
Defined.

(** ** Facet values *)

Section facet_values.

Local Open Scope nat_scope.
Implicit Types (c : Component) (v : Variant) (l : list string) (k : string).

Lemma sorted_set_spec l :
  NoDup (JS.sort (JS.set_of_list l)) ∧
  StronglySorted str_lt (JS.sort (JS.set_of_list l)) ∧
  ∀ x, x ∈ JS.sort (JS.set_of_list l) ↔ x ∈ l.
Proof.
  assert (NoDup (JS.sort (JS.set_of_list l))) as Hnd
    by apply NoDup_sort, NoDup_set_of_list.
  split_and!; [done | |].
  - by apply StronglySorted_strict; [apply StronglySorted_sort |].
  - intros x. by rewrite elem_of_sort, elem_of_set_of_list.
Qed.

Lemma elem_of_flat_map {A} (g : A → list string) (xs : list A) k :
  k ∈ flat_map g xs ↔ ∃ x, x ∈ xs ∧ k ∈ g x.
Proof.
  rewrite list_elem_of_In, in_flat_map.
  by setoid_rewrite list_elem_of_In.
Qed.

Lemma elem_of_truthy_list (o : option string) k :
  k ∈ (if JS.truthy o then option_list o else []) ↔ o = Some k ∧ k ≠ "".
Proof.
  destruct o as [x|]; simpl.
  - destruct (String.eqb_spec x "") as [->|Hx]; simpl.
    + rewrite elem_of_nil. split; [done |]. by intros [[= <-] ?].
    + rewrite list_elem_of_singleton. split.
      * by intros ->.
      * by intros [[= <-] _].
  - rewrite elem_of_nil. split; [done |]. by intros [? _].
Qed.

Lemma elem_of_availableTypes c k :
  k ∈ availableTypes c ↔ ∃ v, v ∈ variants c ∧ v_type v = k.
Proof.
  unfold availableTypes. rewrite (proj2 (proj2 (sorted_set_spec _))).
  rewrite list_elem_of_fmap. split.
  - intros (v & -> & Hv). by exists v.
  - intros (v & Hv & <-). by exists v.
Qed.

Lemma elem_of_availableQualities c k :
  k ∈ availableQualities c ↔
  ∃ v, v ∈ variants c ∧ v_filter v = Some k ∧ k ≠ "".
Proof.
  unfold availableQualities. rewrite (proj2 (proj2 (sorted_set_spec _))).
  rewrite elem_of_flat_map. by setoid_rewrite elem_of_truthy_list.
Qed.

Lemma elem_of_availableConsequences c k :
  k ∈ availableConsequences c ↔
  ∃ v, v ∈ variants c ∧ v_consequence v = Some k ∧ k ≠ "".
Proof.
  unfold availableConsequences. rewrite (proj2 (proj2 (sorted_set_spec _))).
  rewrite elem_of_flat_map. by setoid_rewrite elem_of_truthy_list.
Qed.

Lemma elem_of_availablePatients c k :
  k ∈ availablePatients c ↔ ∃ v, v ∈ variants c ∧ involved v k.
Proof.
  unfold availablePatients. rewrite (proj2 (proj2 (sorted_set_spec _))).
  rewrite elem_of_flat_map. unfold involved.
  setoid_rewrite elem_of_cons.
  by setoid_rewrite elem_of_companionPatients.
Qed.

End facet_values.

(** X5. Each list of facet values is free of duplicates, in strictly
    ascending order, and holds exactly the values that occur in the
    records: the types; the non-empty quality flags; the non-empty
    consequences; the patients of the records and of their companions. *)
Theorem available_values (c : Component) :
  (NoDup (availableTypes c) ∧ StronglySorted str_lt (availableTypes c) ∧
   ∀ t, t ∈ availableTypes c ↔ ∃ v, v ∈ variants c ∧ v_type v = t) ∧
  (NoDup (availableQualities c) ∧
   StronglySorted str_lt (availableQualities c) ∧
   ∀ q, q ∈ availableQualities c ↔
        ∃ v, v ∈ variants c ∧ v_filter v = Some q ∧ q ≠ "") ∧
  (NoDup (availableConsequences c) ∧
   StronglySorted str_lt (availableConsequences c) ∧
   ∀ x, x ∈ availableConsequences c ↔
        ∃ v, v ∈ variants c ∧ v_consequence v = Some x ∧ x ≠ "") ∧
  (NoDup (availablePatients c) ∧
   StronglySorted str_lt (availablePatients c) ∧
   ∀ p, p ∈ availablePatients c ↔ ∃ v, v ∈ variants c ∧ involved v p).
Proof.
  split_and!;
    try (unfold availableTypes, availableQualities, availableConsequences,
           availablePatients; apply sorted_set_spec).
  - apply elem_of_availableTypes.
  - apply elem_of_availableQualities.
  - apply elem_of_availableConsequences.
  - apply elem_of_availablePatients.
Qed.

(** ** Counts against the filtered list *)

Section counts_and_total.

Local Open Scope nat_scope.
Implicit Types (c : Component) (v : Variant) (k : string)
  (ks : list string) (m : gmap string CountValue).

Lemma occurrences_elem_of k ks : k ∈ ks → 1 ≤ occurrences k ks.
Proof.
  unfold occurrences. induction ks as [|k' ks IH]; simpl.
  - by intros ?%elem_of_nil.
  - intros [->|Hk]%elem_of_cons.
    + rewrite String.eqb_refl. simpl. lia.
    + destruct (String.eqb k k'); simpl; [lia | auto].
Qed.

(** A concrete key of a counter is one of the counted keys, and its entry
    is that of the number of its occurrences, at least one. *)
Lemma countsOf_Some keys total k (x : CountValue) :
  k ≠ "All" → countsOf keys total !! k = Some x →
  k ∈ keys ∧
  ∃ n, 1 ≤ n ∧ entryAfter k n = Some x ∧
       (prototypeKey k = false → x = CountNumber n).
Proof.
  intros Hk Hx.
  pose proof (countsOf_lookup keys total k Hk) as Hc.
  rewrite Hx in Hc.
  destruct (decide (k ∈ keys)) as [Hin|Hnin].
  - split; [done |]. exists (occurrences k keys).
    split_and!; [by apply occurrences_elem_of | done |].
    intros Hp. rewrite (entryAfter_ordinary k _ Hp) in Hc.
    destruct (occurrences k keys); simpl in Hc; congruence.
  - by rewrite (occurrences_notin k keys Hnin) in Hc.
Qed.

(** A counted key has the entry of the number of its occurrences, at
    least one. *)
Lemma countsOf_elem_of keys total k :
  k ≠ "All" → k ∈ keys →
  ∃ n, 1 ≤ n ∧ countsOf keys total !! k = entryAfter k n ∧
       (prototypeKey k = false →
        countsOf keys total !! k = Some (CountNumber n)).
Proof.
  intros Hk Hin.
  pose proof (countsOf_lookup keys total k Hk) as Hc.
  pose proof (occurrences_elem_of k keys Hin) as Hpos.
  exists (occurrences k keys). split_and!; [done | done |].
  intros Hp. rewrite Hc, (entryAfter_ordinary k _ Hp).
  destruct (occurrences k keys); simpl; [lia | done].
Qed.

Lemma occurrences_flat_map_ite {A} (g : A → list string) (f : A → bool)
    (l : list A) k :
  (∀ x, occurrences k (g x) = if f x then 1 else 0) →
  occurrences k (flat_map g l) = length (List.filter f l).
Proof.
  intros H. induction l as [|x l IH]; simpl; [done |].
  rewrite occurrences_app, IH, H. by destruct (f x).
Qed.

Lemma filter_length_mono {A} (f g : A → bool) (l : list A) :
  (∀ x, f x = true → g x = true) →
  length (List.filter f l) ≤ length (List.filter g l).
Proof.
  intros H. induction l as [|x l IH]; simpl; [done |].
  destruct (f x) eqn:Hf.
  - rewrite (H x Hf). simpl. lia.
  - destruct (g x); simpl; lia.
Qed.

Lemma elem_of_base c o v : v ∈ applyFilters c o → v ∈ variants c.
Proof. rewrite elem_of_applyFilters. tauto. Qed.

(** The filtered list is the base list of a counter put through the one
    stage that the counter leaves out. *)
Lemma filtered_typeBase c :
  applyFilters c no_overrides
  = List.filter (typeKeeps c no_overrides) (typeBase c).
Proof.
  unfold typeBase. rewrite !applyFilters_keeps, filter_filter_andb.
  apply List.filter_ext. intros v. unfold keeps, facetsKeep.
  change (typeKeeps c (mkOverrides (Some "All") None None None) v) with true.
  change (qualityKeeps c (mkOverrides (Some "All") None None None) v)
    with (qualityKeeps c no_overrides v).
  change (patientKeeps c (mkOverrides (Some "All") None None None) v)
    with (patientKeeps c no_overrides v).
  change (consequenceKeeps c (mkOverrides (Some "All") None None None) v)
    with (consequenceKeeps c no_overrides v).
  by destruct (qualityKeeps c no_overrides v), (typeKeeps c no_overrides v),
    (patientKeeps c no_overrides v), (consequenceKeeps c no_overrides v),
    (searchKeeps c v).
Qed.

Lemma filtered_qualityBase c :
  applyFilters c no_overrides
  = List.filter (qualityKeeps c no_overrides) (qualityBase c).
Proof.
  unfold qualityBase. rewrite !applyFilters_keeps, filter_filter_andb.
  apply List.filter_ext. intros v. unfold keeps, facetsKeep.
  change (qualityKeeps c (mkOverrides None None (Some "All") None) v)
    with true.
  change (typeKeeps c (mkOverrides None None (Some "All") None) v)
    with (typeKeeps c no_overrides v).
  change (patientKeeps c (mkOverrides None None (Some "All") None) v)
    with (patientKeeps c no_overrides v).
  change (consequenceKeeps c (mkOverrides None None (Some "All") None) v)
    with (consequenceKeeps c no_overrides v).
  by destruct (qualityKeeps c no_overrides v), (typeKeeps c no_overrides v),
    (patientKeeps c no_overrides v), (consequenceKeeps c no_overrides v),
    (searchKeeps c v).
Qed.

Lemma filtered_patientBase c :
  applyFilters c no_overrides
  = List.filter (patientKeeps c no_overrides) (patientBase c).
Proof.
  unfold patientBase. rewrite !applyFilters_keeps, filter_filter_andb.
  apply List.filter_ext. intros v. unfold keeps, facetsKeep.
  change (patientKeeps c (mkOverrides None (Some "All") None None) v)
    with true.
  change (typeKeeps c (mkOverrides None (Some "All") None None) v)
    with (typeKeeps c no_overrides v).
  change (qualityKeeps c (mkOverrides None (Some "All") None None) v)
    with (qualityKeeps c no_overrides v).
  change (consequenceKeeps c (mkOverrides None (Some "All") None None) v)
    with (consequenceKeeps c no_overrides v).
  by destruct (qualityKeeps c no_overrides v), (typeKeeps c no_overrides v),
    (patientKeeps c no_overrides v), (consequenceKeeps c no_overrides v),
    (searchKeeps c v).
Qed.

Lemma filtered_consequenceBase c :
  applyFilters c no_overrides
  = List.filter (consequenceKeeps c no_overrides) (consequenceBase c).
Proof.
  unfold consequenceBase. rewrite !applyFilters_keeps, filter_filter_andb.
  apply List.filter_ext. intros v. unfold keeps, facetsKeep.
  change (consequenceKeeps c (mkOverrides None None None (Some "All")) v)
    with true.
  change (typeKeeps c (mkOverrides None None None (Some "All")) v)
    with (typeKeeps c no_overrides v).
  change (qualityKeeps c (mkOverrides None None None (Some "All")) v)
    with (qualityKeeps c no_overrides v).
  change (patientKeeps c (mkOverrides None None None (Some "All")) v)
    with (patientKeeps c no_overrides v).
  by destruct (qualityKeeps c no_overrides v), (typeKeeps c no_overrides v),
    (patientKeeps c no_overrides v), (consequenceKeeps c no_overrides v),
    (searchKeeps c v).
Qed.

End counts_and_total.

(** X6. A key other than 'All' that a facet counter holds as an own
    property is one of the listed facet values of its dimension (for the
    quality counter: or the label 'N/A' of the records without flag), and
    its value is the entry of some number [n] of increments, at least one:
    the number [n] itself when the key is no property name of
    [Object.prototype], a text otherwise. *)
Theorem counted_values_available (c : Component) (k : string)
    (x : CountValue) :
  k ≠ "All" →
  (typeCounts c !! k = Some x →
   k ∈ availableTypes c ∧
   ∃ n, (1 ≤ n)%nat ∧ entryAfter k n = Some x ∧
        (prototypeKey k = false → x = CountNumber n)) ∧
  (qualityCounts c !! k = Some x →
   (k = "N/A" ∨ k ∈ availableQualities c) ∧
   ∃ n, (1 ≤ n)%nat ∧ entryAfter k n = Some x ∧
        (prototypeKey k = false → x = CountNumber n)) ∧
  (patientCounts c !! k = Some x →
   k ∈ availablePatients c ∧
   ∃ n, (1 ≤ n)%nat ∧ entryAfter k n = Some x ∧
        (prototypeKey k = false → x = CountNumber n)) ∧
  (consequenceCounts c !! k = Some x →
   k ∈ availableConsequences c ∧
   ∃ n, (1 ≤ n)%nat ∧ entryAfter k n = Some x ∧
        (prototypeKey k = false → x = CountNumber n)).
Proof.
  intros Hk. split_and!.
  - rewrite typeCounts_countsOf. intros Hn.
    destruct (countsOf_Some _ _ _ _ Hk Hn) as (Hin & Hpos).
    split; [| done]. apply elem_of_flat_map in Hin as (v & Hv & Hkv).
    apply elem_of_availableTypes. exists v.
    split; [by eapply elem_of_base |].
    unfold typeKeys in Hkv. by apply list_elem_of_singleton in Hkv.
  - rewrite qualityCounts_countsOf. intros Hn.
    destruct (countsOf_Some _ _ _ _ Hk Hn) as (Hin & Hpos).
    split; [| done]. apply elem_of_flat_map in Hin as (v & Hv & Hkv).
    unfold qualityKeys in Hkv. apply list_elem_of_singleton in Hkv.
    destruct (v_filter v) as [f|] eqn:Hf; simpl in Hkv; [| by left].
    destruct (String.eqb_spec f "") as [->|Hne]; simpl in Hkv; [by left |].
    right. apply elem_of_availableQualities. exists v.
    split; [by eapply elem_of_base |]. by subst.
  - rewrite patientCounts_countsOf. intros Hn.
    destruct (countsOf_Some _ _ _ _ Hk Hn) as (Hin & Hpos).
    split; [| done]. apply elem_of_flat_map in Hin as (v & Hv & Hkv).
    apply elem_of_availablePatients. exists v.
    split; [by eapply elem_of_base |]. by apply elem_of_getInvolvedPatients.
  - rewrite consequenceCounts_countsOf. intros Hn.
    destruct (countsOf_Some _ _ _ _ Hk Hn) as (Hin & Hpos).
    split; [| done]. apply elem_of_flat_map in Hin as (v & Hv & Hkv).
    apply elem_of_availableConsequences. exists v.
    split; [by eapply elem_of_base |].
    unfold consequenceKeys in Hkv.
    destruct (v_consequence v) as [y|] eqn:Hy; simpl in Hkv;
      [| by apply elem_of_nil in Hkv].
    destruct (String.eqb_spec y "") as [Hy0|Hne]; simpl in Hkv;
      [by apply elem_of_nil in Hkv |].
    apply list_elem_of_singleton in Hkv. by subst.
Qed.

Lemma counted_values_available_witness :
  "SNV" ∈ availableTypes (Samples.neutral [Samples.v100; Samples.v200]) ∧
  ∃ n, (1 ≤ n)%nat ∧ entryAfter "SNV" n = Some (CountNumber 1) ∧
       (prototypeKey "SNV" = false → CountNumber 1 = CountNumber n).
Proof.
  apply (proj1 (counted_values_available
                  (Samples.neutral [Samples.v100; Samples.v200]) "SNV"
                  (CountNumber 1) ltac:(discriminate))).
  reflexivity.
Defined.

(** X7. The entry of the selected value of a facet, when that value is
    not 'All', is the entry of a number of increments that never exceeds
    the number of filtered records; for the selected patient, and for a
    selected non-empty consequence, it is the entry of exactly that number
    of increments. For a selected value that is no property name of
    [Object.prototype] this entry is the number itself, and there is none
    when the number is zero. *)
Theorem selected_value_count (c : Component) :
  (filterType c ≠ "All" →
   ∃ n, (n ≤ totalCount c)%nat ∧
        typeCounts c !! filterType c = entryAfter (filterType c) n ∧
        (prototypeKey (filterType c) = false →
         typeCounts c !! filterType c = countEntry n)) ∧
  (filterQuality c ≠ "All" →
   ∃ n, (n ≤ totalCount c)%nat ∧
        qualityCounts c !! filterQuality c
        = entryAfter (filterQuality c) n ∧
        (prototypeKey (filterQuality c) = false →
         qualityCounts c !! filterQuality c = countEntry n)) ∧
  (filterPatient c ≠ "All" →
   patientCounts c !! filterPatient c
   = entryAfter (filterPatient c) (totalCount c) ∧
   (prototypeKey (filterPatient c) = false →
    patientCounts c !! filterPatient c = countEntry (totalCount c))) ∧
  (filterConsequence c ≠ "All" → filterConsequence c ≠ "" →
   consequenceCounts c !! filterConsequence c
   = entryAfter (filterConsequence c) (totalCount c) ∧
   (prototypeKey (filterConsequence c) = false →
    consequenceCounts c !! filterConsequence c
    = countEntry (totalCount c))).
Proof.
  assert (Hord : ∀ (m : gmap string CountValue) k (n : nat),
             m !! k = entryAfter k n →
             m !! k = entryAfter k n ∧
             (prototypeKey k = false → m !! k = countEntry n)).
  { intros m k n H. split; [done |]. intros Hp.
    by rewrite H, entryAfter_ordinary. }
  unfold totalCount, filteredVariants. split_and!.
  - intros Hk.
    exists (length (List.filter
                      (λ v, String.eqb (filterType c) (v_type v))
                      (typeBase c))).
    split.
    + rewrite filtered_typeBase.
      apply filter_length_mono. intros v Hv%String.eqb_eq.
      unfold typeKeeps, typeStage, effType. simpl.
      rewrite Hv, String.eqb_refl. apply orb_true_r.
    + apply Hord.
      rewrite typeCounts_countsOf, countsOf_lookup by done. f_equal.
      apply occurrences_flat_map_ite.
      intros v. unfold typeKeys, occurrences. simpl.
      by destruct (String.eqb (filterType c) (v_type v)).
  - intros Hk.
    exists (length (List.filter
                      (λ v, String.eqb (filterQuality c) (qualityLabel v))
                      (qualityBase c))).
    split.
    + rewrite filtered_qualityBase.
      apply filter_length_mono. intros v Hv%String.eqb_eq.
      unfold qualityKeeps, qualityStage, effQuality. simpl.
      unfold qualityLabel in Hv.
      destruct (v_filter v) as [f|]; simpl in *; [| apply orb_true_r].
      destruct (String.eqb f ""); simpl in *; [apply orb_true_r |].
      rewrite Hv, String.eqb_refl. apply orb_true_r.
    + apply Hord.
      rewrite qualityCounts_countsOf, countsOf_lookup by done. f_equal.
      apply occurrences_flat_map_ite.
      intros v. unfold qualityKeys, occurrences. simpl.
      fold (qualityLabel v).
      by destruct (String.eqb (filterQuality c) (qualityLabel v)).
  - intros Hk. apply Hord.
    rewrite patientCounts_countsOf, countsOf_lookup by done.
    rewrite filtered_patientBase.
    rewrite (occurrences_flat_map_NoDup getInvolvedPatients)
      by apply NoDup_getInvolvedPatients.
    do 2 f_equal. apply List.filter_ext. intros v.
    unfold patientKeeps, effPatient. simpl.
    rewrite (proj2 (String.eqb_neq _ _) Hk). simpl.
    apply eq_true_iff_eq.
    by rewrite bool_decide_eq_true, elem_of_getInvolvedPatients,
      patientStage_involved.
  - intros Hk Hne. apply Hord.
    rewrite consequenceCounts_countsOf, countsOf_lookup by done.
    rewrite filtered_consequenceBase. f_equal.
    apply occurrences_flat_map_ite.
    intros v. unfold consequenceKeeps, consequenceStage, effConsequence,
      consequenceKeys, occurrences. simpl.
    rewrite (proj2 (String.eqb_neq _ _) Hk). simpl.
    destruct (v_consequence v) as [x|]; simpl; [| done].
    destruct (String.eqb_spec x "") as [Hx|Hx]; simpl.
    + subst x. by rewrite (proj2 (String.eqb_neq "" _)) by congruence.
    + rewrite (String.eqb_sym (filterConsequence c) x).
      by destruct (String.eqb x (filterConsequence c)).
Qed.

Lemma selected_value_count_witness :
  patientCounts (setPatientFilter "P2" (Samples.neutral [Samples.v300]))
    !! "P2"
  = countEntry
      (totalCount (setPatientFilter "P2" (Samples.neutral [Samples.v300]))).
Proof.
  refine (proj2 (proj1 (proj2 (proj2 (selected_value_count
           (setPatientFilter "P2" (Samples.neutral [Samples.v300])))))
           _) _).
  - discriminate.
  - reflexivity.
Defined.

(** X8. For each facet the count under 'All' is at least the number of
    filtered records and at most the number of records, and it is the
    number of filtered records when the selection of that facet is
    neutral. *)
Theorem total_and_all_counts (c : Component) :
  (∀ n, typeCounts c !! "All" = Some (CountNumber n) →
        (totalCount c ≤ n ≤ length (variants c))%nat ∧
        (JS.toLowerCase (filterType c) = "all" → n = totalCount c)) ∧
  (∀ n, qualityCounts c !! "All" = Some (CountNumber n) →
        (totalCount c ≤ n ≤ length (variants c))%nat ∧
        (filterQuality c = "All" → n = totalCount c)) ∧
  (∀ n, patientCounts c !! "All" = Some (CountNumber n) →
        (totalCount c ≤ n ≤ length (variants c))%nat ∧
        (filterPatient c = "All" → n = totalCount c)) ∧
  (∀ n, consequenceCounts c !! "All" = Some (CountNumber n) →
        (totalCount c ≤ n ≤ length (variants c))%nat ∧
        (filterConsequence c = "All" → n = totalCount c)).
Proof.
  unfold totalCount, filteredVariants.
  rewrite typeCounts_countsOf, qualityCounts_countsOf, patientCounts_countsOf,
    consequenceCounts_countsOf, !countsOf_All.
  split_and!; intros n [= <-].
  - rewrite filtered_typeBase. split_and!.
    + apply List.filter_length_le.
    + apply sublist_length. unfold typeBase.
      rewrite applyFilters_keeps. apply filter_sublist.
    + intros H. rewrite filter_true; [done |]. intros v.
      unfold typeKeeps, effType. simpl. by rewrite H.
  - rewrite filtered_qualityBase. split_and!.
    + apply List.filter_length_le.
    + apply sublist_length. unfold qualityBase.
      rewrite applyFilters_keeps. apply filter_sublist.
    + intros H. rewrite filter_true; [done |]. intros v.
      unfold qualityKeeps, effQuality. simpl. by rewrite H.
  - rewrite filtered_patientBase. split_and!.
    + apply List.filter_length_le.
    + apply sublist_length. unfold patientBase.
      rewrite applyFilters_keeps. apply filter_sublist.
    + intros H. rewrite filter_true; [done |]. intros v.
      unfold patientKeeps, effPatient. simpl. by rewrite H.
  - rewrite filtered_consequenceBase. split_and!.
    + apply List.filter_length_le.
    + apply sublist_length. unfold consequenceBase.
      rewrite applyFilters_keeps. apply filter_sublist.
    + intros H. rewrite filter_true; [done |]. intros v.
      unfold consequenceKeeps, effConsequence. simpl. by rewrite H.
Qed.

Lemma total_and_all_counts_witness :
  (totalCount (Samples.neutral [Samples.v100; Samples.v200]) ≤ 2
   ≤ length (variants (Samples.neutral [Samples.v100; Samples.v200])))%nat.
Proof.
  apply (proj1 (total_and_all_counts
                  (Samples.neutral [Samples.v100; Samples.v200])) 2%nat).
  reflexivity.
Defined.

(** X9. Every record is judged on its own: the filtered list of a
    concatenation is the concatenation of the filtered lists, and
    filtering a filtered list again changes nothing. *)
Theorem applyFilters_per_record (c : Component) (o : Overrides)
    (l1 l2 : list Variant) :
  applyFilters (withVariants (l1 ++ l2)%list c) o
  = (applyFilters (withVariants l1 c) o ++
     applyFilters (withVariants l2 c) o)%list ∧
  applyFilters (withVariants (applyFilters c o) c) o = applyFilters c o.
Proof.
  rewrite !applyFilters_keeps. cbn [variants withVariants].
  change (keeps (withVariants (l1 ++ l2)%list c) o) with (keeps c o).
  change (keeps (withVariants l1 c) o) with (keeps c o).
  change (keeps (withVariants l2 c) o) with (keeps c o).
  change (keeps (withVariants (List.filter (keeps c o) (variants c)) c) o)
    with (keeps c o).
  split; [apply List.filter_app |].
  rewrite filter_filter_andb. apply List.filter_ext. intros v.
  by destruct (keeps c o v).
Qed.

(** ** The seeding effect *)

Section seeding_effect.

Implicit Types (c : Component) (v : Variant).

Lemma effect_body_unfold c :
  effect_body c
  = mkComponent (variants c) (jobId c) (hgvsAlternatives c) (searchTerm c)
      (filterType c) (filterPatient c) (filterConsequence c)
      (if JS.array_includes (availableQualities c) "PASS"
       then "PASS" else "All")
      (hgvsStates (effect_body c)).
Proof.
  unfold effect_body. cbv zeta.
  change (availableQualities (setHgvsStates _ c))
    with (availableQualities c).
  by destruct (JS.array_includes (availableQualities c) "PASS").
Qed.

Lemma array_includes_PASS c :
  JS.array_includes (availableQualities c) "PASS" = true ↔
  ∃ v, v ∈ variants c ∧ v_filter v = Some "PASS".
Proof.
  rewrite array_includes_elem_of, elem_of_availableQualities.
  split; intros (v & Hv & Hf); exists v; [tauto |].
  split_and!; done.
Qed.

End seeding_effect.

(** X10. The effect selects the quality 'PASS' when some record carries the
    flag 'PASS' and the quality 'All' otherwise; it keeps the inputs and
    the other four selections. *)
Theorem effect_quality_default (c : Component) :
  ((∃ v, v ∈ variants c ∧ v_filter v = Some "PASS") →
   filterQuality (effect_body c) = "PASS") ∧
  ((∀ v, v ∈ variants c → v_filter v ≠ Some "PASS") →
   filterQuality (effect_body c) = "All") ∧
  variants (effect_body c) = variants c ∧
  jobId (effect_body c) = jobId c ∧
  hgvsAlternatives (effect_body c) = hgvsAlternatives c ∧
  searchTerm (effect_body c) = searchTerm c ∧
  filterType (effect_body c) = filterType c ∧
  filterPatient (effect_body c) = filterPatient c ∧
  filterConsequence (effect_body c) = filterConsequence c.
Proof.
  rewrite effect_body_unfold. cbn. split_and!; try done.
  - intros H. by rewrite (proj2 (array_includes_PASS c) H).
  - intros H.
    destruct (JS.array_includes (availableQualities c) "PASS") eqn:E;
      [| done].
    apply array_includes_PASS in E as (v & Hv & Hf). by destruct (H v Hv).
Qed.

Lemma effect_quality_default_witness :
  filterQuality
    (effect_body (Samples.neutral [Samples.v100; Samples.v200])) = "PASS".
Proof.
  apply (proj1 (effect_quality_default
                  (Samples.neutral [Samples.v100; Samples.v200]))).
  exists Samples.v100. split; [constructor | reflexivity].
Defined.

(** X11. What the effect leaves behind does not depend on the quality
    selection and on the cache it finds: a run after a user's quality
    choice and after fetches gives the same component as a run before
    them, and two runs in a row are one. *)
Theorem effect_discards_quality_and_cache (c : Component) (quality : string)
    (m : gmap string HgvsState) :
  effect_body (setHgvsStates m (setQualityFilter quality c)) = effect_body c ∧
  effect_body (effect_body c) = effect_body c.
Proof.
  assert (∀ c1 c2,
            variants c1 = variants c2 → jobId c1 = jobId c2 →
            hgvsAlternatives c1 = hgvsAlternatives c2 →
            searchTerm c1 = searchTerm c2 → filterType c1 = filterType c2 →
            filterPatient c1 = filterPatient c2 →
            filterConsequence c1 = filterConsequence c2 →
            effect_body c1 = effect_body c2) as Hdep.
  { intros c1 c2 Hv Hj Ha Hs Ht Hp Hc.
    rewrite (effect_body_unfold c1), (effect_body_unfold c2).
    rewrite !effect_body_states. unfold availableQualities.
    by rewrite Hv, Hj, Ha, Hs, Ht, Hp, Hc. }
  split.
  - by apply Hdep.
  - apply Hdep; by rewrite effect_body_unfold.
Qed.

(** ** Reconciliation and clicks *)

Section relaxation.

Implicit Types (c : Component) (o : Overrides) (v w : Variant).

Lemma filter_sublist_mono {A} (f g : A → bool) (l : list A) :
  (∀ x, f x = true → g x = true) →
  List.filter f l `sublist_of` List.filter g l.
Proof.
  intros H. induction l as [|x l IH]; simpl; [constructor |].
  destruct (f x) eqn:Hf.
  - rewrite (H x Hf). by constructor.
  - destruct (g x); [by constructor | done].
Qed.

(** A selection that is left alone or reset to its neutral value keeps
    what it kept. *)
Lemma keeps_relaxed c c' o w :
  hgvsStates c' = hgvsStates c →
  (searchTerm c' = searchTerm c ∨ searchTerm c' = "") →
  (filterType c' = filterType c ∨ filterType c' = "All") →
  (filterPatient c' = filterPatient c ∨ filterPatient c' = "All") →
  (filterQuality c' = filterQuality c ∨ filterQuality c' = "All") →
  (filterConsequence c' = filterConsequence c ∨
   filterConsequence c' = "All") →
  keeps c o w = true → keeps c' o w = true.
Proof.
  intros Hh Hs Ht Hp Hq Hc. unfold keeps, facetsKeep.
  rewrite !andb_true_iff. intros [[[[Kq Kt] Kp] Kc] Ks]. split_and!.
  - unfold qualityKeeps, effQuality in *.
    destruct (o_quality o); simpl in *; [done |].
    by destruct Hq as [-> | ->].
  - unfold typeKeeps, effType in *.
    destruct (o_type o); simpl in *; [done |].
    by destruct Ht as [-> | ->].
  - unfold patientKeeps, effPatient in *.
    destruct (o_patient o); simpl in *; [done |].
    by destruct Hp as [-> | ->].
  - unfold consequenceKeeps, effConsequence in *.
    destruct (o_consequence o); simpl in *; [done |].
    by destruct Hc as [-> | ->].
  - destruct Hs as [Hs|Hs].
    + by rewrite (searchKeeps_ext c c' w Hs Hh).
    + unfold searchKeeps, effSearch. by rewrite Hs.
Qed.

Lemma ensureVariantVisible_relaxed c v :
  let c' := (ensureVariantVisible c v).1 in
  variants c' = variants c ∧
  hgvsStates c' = hgvsStates c ∧
  (searchTerm c' = searchTerm c ∨ searchTerm c' = "") ∧
  (filterType c' = filterType c ∨ filterType c' = "All") ∧
  (filterPatient c' = filterPatient c ∨ filterPatient c' = "All") ∧
  (filterQuality c' = filterQuality c ∨ filterQuality c' = "All") ∧
  (filterConsequence c' = filterConsequence c ∨
   filterConsequence c' = "All").
Proof.
  rewrite ensureVariantVisible_unfold. cbn.
  split_and!; try done.
  - destruct (resetsSearch c v); auto.
  - destruct (resetsType c v); auto.
  - destruct (resetsPatient c v); auto.
  - destruct (resetsQuality c v); auto.
  - destruct (resetsConsequence c v); auto.
Qed.

Lemma resets_after c v :
  let c' := (ensureVariantVisible c v).1 in
  resetsSearch c' v = false ∧ resetsType c' v = false ∧
  resetsPatient c' v = false ∧ resetsQuality c' v = false ∧
  resetsConsequence c' v = false.
Proof.
  cbv zeta. pose proof (ensureVariantVisible_passes c v) as Hk.
  unfold keeps, facetsKeep in Hk. rewrite !andb_true_iff in Hk.
  destruct Hk as [[[[Kq Kt] Kp] Kc] Ks].
  unfold resetsSearch, resetsPatient, resetsQuality, resetsConsequence.
  rewrite Kq, Kp, Kc, Ks. split_and!; try done.
  rewrite ensureVariantVisible_unfold. unfold resetsType at 1. cbn.
  destruct (resetsType c v) eqn:E; [done |]. exact E.
Qed.

End relaxation.

(** X12. A second call of [ensureVariantVisible] for the same record
    changes nothing and returns false, whatever the first call found. *)
Theorem ensureVariantVisible_idempotent (c : Component) (v : Variant) :
  ensureVariantVisible (ensureVariantVisible c v).1 v
  = ((ensureVariantVisible c v).1, false).
Proof.
  destruct (resets_after c v) as (Hs & Ht & Hp & Hq & Hc).
  rewrite (ensureVariantVisible_unfold (ensureVariantVisible c v).1 v).
  rewrite Hs, Ht, Hp, Hq, Hc. simpl.
  by destruct (ensureVariantVisible c v).1.
Qed.

(** X13. [ensureVariantVisible] only relaxes: under every override the
    list filtered before the call is a subsequence of the list filtered
    after it, the record list and the cache are left alone, and a record
    of the list is in the filtered list after the call. *)
Theorem ensureVariantVisible_only_relaxes (c : Component) (v : Variant)
    (o : Overrides) :
  applyFilters c o `sublist_of` applyFilters (ensureVariantVisible c v).1 o ∧
  variants (ensureVariantVisible c v).1 = variants c ∧
  hgvsStates (ensureVariantVisible c v).1 = hgvsStates c ∧
  (v ∈ variants c →
   v ∈ applyFilters (ensureVariantVisible c v).1 no_overrides).
Proof.
  destruct (ensureVariantVisible_relaxed c v)
    as (Hv & Hh & Hs & Ht & Hp & Hq & Hc).
  split_and!; [| done | done |].
  - rewrite !applyFilters_keeps, Hv. apply filter_sublist_mono.
    intros w. by apply keeps_relaxed.
  - intros Hin. apply elem_of_applyFilters. rewrite Hv.
    split; [done | apply ensureVariantVisible_passes].
Qed.

Lemma ensureVariantVisible_only_relaxes_witness :
  Samples.v200 ∈
    applyFilters
      (ensureVariantVisible
         (setQualityFilter "PASS"
            (Samples.neutral [Samples.v100; Samples.v200]))
         Samples.v200).1
      no_overrides.
Proof.
  apply (ensureVariantVisible_only_relaxes
           (setQualityFilter "PASS"
              (Samples.neutral [Samples.v100; Samples.v200]))
           Samples.v200 no_overrides).
  do 2 constructor.
Defined.

(** X14. A click on a pill of a record selects a value under which the
    stage of that pill keeps the record: its type, its quality flag (or
    'All' when it has none), one of its involved patients, its
    consequence. The other selections are left alone, so a record that
    was in the filtered list is still in it after the click. *)
Theorem click_keeps_record (c : Component) (v : Variant) :
  (typeKeeps (onPillClick (v_type v) c) no_overrides v = true ∧
   qualityKeeps (onQualityClick (v_filter v) c) no_overrides v = true ∧
   (∀ p, involved v p →
         patientKeeps (onPatientClick p c) no_overrides v = true) ∧
   (∀ x, v_consequence v = Some x →
         consequenceKeeps (onConsequenceClick x c) no_overrides v = true)) ∧
  (v ∈ applyFilters c no_overrides →
   v ∈ applyFilters (onPillClick (v_type v) c) no_overrides ∧
   v ∈ applyFilters (onQualityClick (v_filter v) c) no_overrides ∧
   (∀ p, involved v p →
         v ∈ applyFilters (onPatientClick p c) no_overrides) ∧
   (∀ x, v_consequence v = Some x →
         v ∈ applyFilters (onConsequenceClick x c) no_overrides)).
Proof.
  assert (typeKeeps (onPillClick (v_type v) c) no_overrides v = true) as Kt.
  { unfold typeKeeps, typeStage, effType. simpl.
    rewrite String.eqb_refl. apply orb_true_r. }
  assert (qualityKeeps (onQualityClick (v_filter v) c) no_overrides v = true)
    as Kq.
  { unfold qualityKeeps, qualityStage, effQuality, onQualityClick. simpl.
    destruct (v_filter v) as [f|]; simpl; [| done].
    destruct (String.eqb f ""); simpl; [done |].
    rewrite String.eqb_refl. apply orb_true_r. }
  assert (∀ p, involved v p →
               patientKeeps (onPatientClick p c) no_overrides v = true) as Kp.
  { intros p Hp. unfold patientKeeps, effPatient. simpl.
    rewrite (proj2 (patientStage_involved p v) Hp). apply orb_true_r. }
  assert (∀ x, v_consequence v = Some x →
               consequenceKeeps (onConsequenceClick x c) no_overrides v = true)
    as Kc.
  { intros x Hx. unfold consequenceKeeps, consequenceStage, effConsequence.
    simpl. rewrite Hx, String.eqb_refl. apply orb_true_r. }
  split; [by split_and! |].
  intros Hv. apply elem_of_applyFilters in Hv as [Hin Hk].
  unfold keeps, facetsKeep in Hk. rewrite !andb_true_iff in Hk.
  destruct Hk as [[[[Hq Ht] Hp] Hc] Hs].
  split_and!.
  - apply elem_of_applyFilters. split; [done |]. unfold keeps, facetsKeep.
    rewrite Kt, !andb_true_iff. by split_and!.
  - apply elem_of_applyFilters. split; [done |]. unfold keeps, facetsKeep.
    rewrite Kq, !andb_true_iff. by split_and!.
  - intros p Hinv. apply elem_of_applyFilters. split; [done |].
    unfold keeps, facetsKeep. rewrite (Kp p Hinv), !andb_true_iff.
    by split_and!.
  - intros x Hx. apply elem_of_applyFilters. split; [done |].
    unfold keeps, facetsKeep. rewrite (Kc x Hx), !andb_true_iff.
    by split_and!.
Qed.

Lemma click_keeps_record_witness :
  patientKeeps (onPatientClick "P2" (Samples.neutral [Samples.v300]))
    no_overrides Samples.v300 = true.
Proof.
  apply (proj1 (click_keeps_record (Samples.neutral [Samples.v300])
                  Samples.v300)).
  right. eexists _, (Samples.mk 300 "SNV" "P2" None None HgvsAbsent None).
  split; [reflexivity |]. split; [constructor | reflexivity].
Defined.

(** ** Outcomes of a fetch *)

Section fetch_outcomes.

Import Fetch.
Implicit Types (c : Component) (v : Variant) (svc : Service).

(** The run of an issued fetch whose lookup succeeds and whose save-back,
    if there is a job id, is accepted. *)
Lemma run_success svc c v (primary : string) (alts : list string) :
  getHgvs c v = [primary] → occurs ":" primary →
  getHgvsAlternatives svc (hd "" (JS.split ":" primary)) (v_position v)
    (v_ref v) (v_alt v) = Some alts →
  (JS.truthy (jobId c) = true →
   addJobHgvsAlternatives svc (default "" (jobId c)) primary alts = true) →
  run svc (fetchHgvsAlternatives v) c
  = (setHgvsStates
       (<[getHgvsKey v := successState alts]>
          (<[getHgvsKey v := pendingState]> (hgvsStates c))) c,
     [EvStates (<[getHgvsKey v := pendingState]> (hgvsStates c));
      EvLookup (hd "" (JS.split ":" primary)) (v_position v) (v_ref v)
        (v_alt v);
      EvStates
        (<[getHgvsKey v := successState alts]>
           (<[getHgvsKey v := pendingState]> (hgvsStates c)));
      EvToast "Alternatives received" "success"] ++
     (if JS.truthy (jobId c)
      then [EvPersist (default "" (jobId c)) primary alts] else []))%list.
Proof.
  intros Hcur Hcolon Hlookup Hsave.
  unfold fetchHgvsAlternatives. cbn [run].
  rewrite (fetchFrom_issued c v primary) by done.
  cbn [run]. rewrite Hlookup.
  cbn [afterLookup run setHgvsStates jobId hgvsStates].
  destruct (JS.truthy (jobId c)) eqn:Hj.
  - cbn [run]. by rewrite (Hsave eq_refl).
  - reflexivity.
Qed.

Lemma getHgvs_cached c v (st : HgvsState) :
  hgvsStates c !! getHgvsKey v = Some st →
  getHgvs c v
  = if (0 <? length (alternatives st))%nat then alternatives st
    else rawHgvs v.
Proof. intros H. unfold getHgvs. by rewrite H. Qed.

End fetch_outcomes.

Section fetch_theorems.

Import Fetch.
Implicit Types (c : Component) (v : Variant) (svc : Service).

(** X15. When the lookup of an issued fetch is rejected, the error is
    logged and the entry of the key goes from pending to the error state;
    no success is announced and nothing is saved, and the record resolves
    to its raw names again. *)
Theorem fetch_lookup_rejected svc c v (primary : string) :
  getHgvs c v = [primary] → occurs ":" primary →
  getHgvsAlternatives svc (hd "" (JS.split ":" primary)) (v_position v)
    (v_ref v) (v_alt v) = None →
  run svc (fetchHgvsAlternatives v) c
  = (setHgvsStates
       (<[getHgvsKey v := errorState]>
          (<[getHgvsKey v := pendingState]> (hgvsStates c))) c,
     [EvStates (<[getHgvsKey v := pendingState]> (hgvsStates c));
      EvLookup (hd "" (JS.split ":" primary)) (v_position v) (v_ref v)
        (v_alt v);
      EvConsoleError;
      EvStates
        (<[getHgvsKey v := errorState]>
           (<[getHgvsKey v := pendingState]> (hgvsStates c)))]) ∧
  getHgvs (run svc (fetchHgvsAlternatives v) c).1 v = rawHgvs v.
Proof.
  intros Hcur Hcolon Hlookup.
  assert (run svc (fetchHgvsAlternatives v) c
          = (setHgvsStates
               (<[getHgvsKey v := errorState]>
                  (<[getHgvsKey v := pendingState]> (hgvsStates c))) c,
             [EvStates (<[getHgvsKey v := pendingState]> (hgvsStates c));
              EvLookup (hd "" (JS.split ":" primary)) (v_position v)
                (v_ref v) (v_alt v);
              EvConsoleError;
              EvStates
                (<[getHgvsKey v := errorState]>
                   (<[getHgvsKey v := pendingState]> (hgvsStates c)))]))
    as Hrun.
  { unfold fetchHgvsAlternatives. cbn [run].
    rewrite (fetchFrom_issued c v primary) by done.
    cbn [run]. by rewrite Hlookup. }
  split; [exact Hrun |]. rewrite Hrun. cbn [fst].
  rewrite (getHgvs_cached _ v errorState); [done |].
  apply lookup_insert_eq.
Qed.

Lemma fetch_lookup_rejected_witness :
  getHgvs
    (run (mkService (λ _ _ _ _, None) (λ _ _ _, true))
       (fetchHgvsAlternatives Samples.v300) jobView).1 Samples.v300
  = rawHgvs Samples.v300.
Proof.
  apply (fetch_lookup_rejected (mkService (λ _ _ _ _, None) (λ _ _ _, true))
           jobView Samples.v300 "NM_000546.6:c.215C>G").
  - reflexivity.
  - exists "NM_000546.6", "c.215C>G". reflexivity.
  - reflexivity.
Defined.

(** X16. Without a job id (absent or empty) a successful fetch issues no
    save-back: the entry of the key ends in the success state with the
    alternatives, whatever the service would answer to a save. *)
Theorem fetch_without_job_id svc c v (primary : string)
    (alts : list string) :
  getHgvs c v = [primary] → occurs ":" primary →
  getHgvsAlternatives svc (hd "" (JS.split ":" primary)) (v_position v)
    (v_ref v) (v_alt v) = Some alts →
  JS.truthy (jobId c) = false →
  existsb isPersist (run svc (fetchHgvsAlternatives v) c).2 = false ∧
  hgvsStates (run svc (fetchHgvsAlternatives v) c).1 !! getHgvsKey v
  = Some (successState alts) ∧
  existsb isToast (run svc (fetchHgvsAlternatives v) c).2 = true.
Proof.
  intros Hcur Hcolon Hlookup Hjob.
  rewrite (run_success svc c v primary alts) by (done || by rewrite Hjob).
  rewrite Hjob. cbn. split_and!; [done | | done].
  apply lookup_insert_eq.
Qed.

Lemma fetch_without_job_id_witness :
  existsb isPersist
    (run saveFails (fetchHgvsAlternatives Samples.v300)
       (Samples.neutral [Samples.v300])).2 = false.
Proof.
  apply (fetch_without_job_id saveFails (Samples.neutral [Samples.v300])
           Samples.v300 "NM_000546.6:c.215C>G"
           ["ENST00000269305.9:c.215C>G"; "NM_000546.6:c.215C>G"]).
  - reflexivity.
  - exists "NM_000546.6", "c.215C>G". reflexivity.
  - reflexivity.
  - reflexivity.
Defined.

(** X17. Once the cache holds two or more alternatives under the key of a
    record, the record resolves to them and a fetch for it returns at
    once; in particular a second fetch after a successful one that
    delivered two or more alternatives issues no call and changes
    nothing. *)
Theorem fetch_skipped_once_cached c v :
  (∀ st,
     hgvsStates c !! getHgvsKey v = Some st →
     (2 ≤ length (alternatives st))%nat →
     getHgvs c v = alternatives st ∧
     ∀ svc, run svc (fetchHgvsAlternatives v) c = (c, [])) ∧
  (∀ svc svc' (primary : string) (alts : list string),
     getHgvs c v = [primary] → occurs ":" primary →
     getHgvsAlternatives svc (hd "" (JS.split ":" primary)) (v_position v)
       (v_ref v) (v_alt v) = Some alts →
     (JS.truthy (jobId c) = true →
      addJobHgvsAlternatives svc (default "" (jobId c)) primary alts = true) →
     (2 ≤ length alts)%nat →
     run svc' (fetchHgvsAlternatives v)
       (run svc (fetchHgvsAlternatives v) c).1
     = ((run svc (fetchHgvsAlternatives v) c).1, [])).
Proof.
  assert (∀ c0 st,
            hgvsStates c0 !! getHgvsKey v = Some st →
            (2 ≤ length (alternatives st))%nat →
            getHgvs c0 v = alternatives st ∧
            ∀ svc, run svc (fetchHgvsAlternatives v) c0 = (c0, [])) as Hskip.
  { intros c0 st Hst Hlen.
    assert (getHgvs c0 v = alternatives st) as Hcur.
    { rewrite (getHgvs_cached c0 v st Hst).
      destruct (alternatives st); [simpl in Hlen; lia | done]. }
    split; [done |]. intros svc.
    unfold fetchHgvsAlternatives. cbn [run].
    rewrite fetchFrom_skipped; [done |]. left. rewrite Hcur. lia. }
  split; [apply Hskip |].
  intros svc svc' primary alts Hcur Hcolon Hlookup Hsave Hlen.
  rewrite (run_success svc c v primary alts) by done. cbn [fst].
  apply (Hskip _ (successState alts)); [apply lookup_insert_eq | done].
Qed.

Lemma fetch_skipped_once_cached_witness :
  getHgvs cachedAlternatives Samples.v300
  = ["ENST00000269305.9:c.215C>G"; "NM_000546.6:c.215C>G"].
Proof.
  apply (proj1 (fetch_skipped_once_cached cachedAlternatives Samples.v300)
           (mkHgvsState false false
              ["ENST00000269305.9:c.215C>G"; "NM_000546.6:c.215C>G"])).
  - reflexivity.
  - simpl. lia.
Defined.

End fetch_theorems.

(** ** The three states of the cache *)

Section tri_state.

Import Fetch.
Implicit Types (c : Component) (v : Variant) (s : Session).

Lemma triState_pending : triState pendingState.
Proof. by split. Qed.

Lemma triState_error : triState errorState.
Proof. by split. Qed.

Lemma triState_success (alts : list string) : triState (successState alts).
Proof. by split. Qed.

Lemma onError_writesTriState key : writesTriState (onError key).
Proof.
  unfold onError. do 2 constructor; [apply triState_error | constructor].
Qed.

Lemma fetch_writesTriState v : writesTriState (fetchHgvsAlternatives v).
Proof.
  unfold fetchHgvsAlternatives. constructor. intros c.
  unfold fetchFrom. cbv zeta.
  destruct (1 <? length (getHgvs c v))%nat; [constructor |].
  destruct (getHgvs c v) as [|primary l]; [constructor |].
  destruct (length (JS.split ":" primary) <? 2)%nat; [constructor |].
  constructor; [apply triState_pending |].
  constructor. intros [alternatives|]; [| apply onError_writesTriState].
  constructor; [apply triState_success |].
  do 2 constructor. intros c'.
  destruct (JS.truthy (jobId c')); [| constructor].
  constructor. intros [|]; [constructor | apply onError_writesTriState].
Qed.

Lemma runSync_writesTriState (p : Prog) c :
  writesTriState p →
  map_Forall (λ _ e, triState e) (hgvsStates c) →
  map_Forall (λ _ e, triState e) (hgvsStates (runSync p c).1.1) ∧
  (∀ pd, (runSync p c).2 = Some pd → pendingTriState pd).
Proof.
  intros Hp. revert c.
  induction Hp as [|f Hf IH|key st p Hst Hp IH|message kind p Hp IH|p Hp IH
                  |t pos r a f Hf IH|j pr al f Hf IH]; intros c Hc;
    cbn [runSync].
  - by split.
  - by apply IH.
  - specialize (IH (setHgvsStates (setEntry key st (hgvsStates c)) c)).
    destruct (runSync p _) as [[c' evs] pd]. cbn [fst snd] in *.
    apply IH. unfold setEntry. simpl. by apply map_Forall_insert_2.
  - specialize (IH c Hc). by destruct (runSync p c) as [[c' evs] pd].
  - specialize (IH c Hc). by destruct (runSync p c) as [[c' evs] pd].
  - split; [done |]. by intros pd [= <-].
  - split; [done |]. by intros pd [= <-].
Qed.

Lemma suspended_sessionTriState v
    (r : Component * list Event * option Pending) (others : list InFlight) :
  map_Forall (λ _ e, triState e) (hgvsStates r.1.1) →
  (∀ pd, r.2 = Some pd → pendingTriState pd) →
  Forall (λ f, pendingTriState (inflPending f)) others →
  sessionTriState (suspended v r others).
Proof.
  intros Hm Hr Ho. destruct r as [[c evs] [pd|]]; split; simpl in *;
    try done.
  apply Forall_app. split; [done |]. constructor; [| constructor].
  by apply Hr.
Qed.

Lemma seeded_triState (alts : gmap string (list string)) :
  map_Forall (λ _ e, triState e) (mkHgvsState false false <$> alts).
Proof.
  intros k e. rewrite lookup_fmap.
  destruct (alts !! k); intros [= <-]. apply (triState_success l).
Qed.

Lemma step_sessionTriState (a : Action) s :
  sessionTriState s → sessionTriState (step a s).
Proof.
  intros [Hm Hf].
  destruct a as [vs alts|j|term|type|patient|consequence|quality
                |v|v|i r|i ok]; cbn [step]; try (by split).
  - split; [| done]. cbn [comp]. rewrite effect_body_states.
    apply seeded_triState.
  - split; [| done]. cbn [comp]. by rewrite ensureVariantVisible_unfold.
  - destruct (runSync_writesTriState _ (comp s) (fetch_writesTriState v) Hm).
    by apply suspended_sessionTriState.
  - destruct (inflight s !! i) as [[v [t pos rf al f|j pr al f]]|] eqn:Hi;
      try (by split).
    eapply Forall_lookup_1 in Hi as Hpd; [| exact Hf]. simpl in Hpd.
    destruct (runSync_writesTriState _ (comp s) (Hpd r) Hm).
    apply suspended_sessionTriState; [done | done |].
    by apply Forall_delete_list.
  - destruct (inflight s !! i) as [[v [t pos rf al f|j pr al f]]|] eqn:Hi;
      try (by split).
    eapply Forall_lookup_1 in Hi as Hpd; [| exact Hf]. simpl in Hpd.
    destruct (runSync_writesTriState _ (comp s) (Hpd ok) Hm).
    apply suspended_sessionTriState; [done | done |].
    by apply Forall_delete_list.
Qed.

(** X18. In every session of the view, however the fetches and their
    answers interleave with the other actions, a cache entry is never
    loading and failed at once, and it has alternatives only when it is
    neither loading nor failed. *)
Theorem cache_entries_tri_state s (k : string) (e : HgvsState) :
  reachable s →
  hgvsStates (comp s) !! k = Some e →
  loading e && error e = false ∧
  (loading e || error e = true → alternatives e = []).
Proof.
  intros Hs He.
  assert (sessionTriState s) as [Hm _].
  { clear k e He. induction Hs as [vs alts j|a s Hs IH].
    - split; [| constructor]. unfold initial. cbn [comp].
      rewrite effect_body_states. apply seeded_triState.
    - by apply step_sessionTriState. }
  exact (Hm k e He).
Qed.

Lemma cache_entries_tri_state_witness :
  loading (successState ["ENST00000269305.9:c.215C>G"]) &&
  error (successState ["ENST00000269305.9:c.215C>G"]) = false ∧
  (loading (successState ["ENST00000269305.9:c.215C>G"]) ||
   error (successState ["ENST00000269305.9:c.215C>G"]) = true →
   alternatives (successState ["ENST00000269305.9:c.215C>G"]) = []).
Proof.
  apply (cache_entries_tri_state fetchedSession "NM_000546.6:c.215C>G").
  - do 2 apply reachable_step. apply reachable_initial.
  - reflexivity.
Defined.

End tri_state.

(** ** Fetches, shared keys and the seed *)

Section fetch_and_seed.

Import Fetch.
Implicit Types (c : Component) (v : Variant) (svc : Service).

(** The entry of the key after the run of an issued fetch. *)
Lemma run_issued_entry svc c v (primary : string) :
  getHgvs c v = [primary] → occurs ":" primary →
  ∃ e, hgvsStates (run svc (fetchHgvsAlternatives v) c).1 !! getHgvsKey v
       = Some e ∧
       (e = errorState ∨
        ∃ alts,
          getHgvsAlternatives svc (hd "" (JS.split ":" primary))
            (v_position v) (v_ref v) (v_alt v) = Some alts ∧
          e = successState alts).
Proof.
  intros Hcur Hcolon.
  unfold fetchHgvsAlternatives. cbn [run].
  rewrite (fetchFrom_issued c v primary) by done. cbn [run].
  destruct (getHgvsAlternatives svc _ _ _ _) as [alts|] eqn:Hlookup.
  - cbn [afterLookup run setHgvsStates jobId hgvsStates].
    destruct (JS.truthy (jobId c)).
    + cbn [run].
      destruct (addJobHgvsAlternatives svc _ _ _); cbn.
      * eexists. split; [apply lookup_insert_eq |]. right. by exists alts.
      * eexists. split; [apply lookup_insert_eq |]. by left.
    + cbn. eexists. split; [apply lookup_insert_eq |]. right. by exists alts.
  - cbn. eexists. split; [apply lookup_insert_eq |]. by left.
Qed.

(** Every run of a fetch writes its own key only. *)
Lemma run_other_keys svc (p : Prog) c (key k : string) :
  onlySets key p → k ≠ key →
  hgvsStates (run svc p c).1 !! k = hgvsStates c !! k.
Proof.
  intros Hp Hk. revert c.
  induction Hp as [|f Hf IH|st p Hp IH|message kind p Hp IH|p Hp IH
                  |t pos r a f Hf IH|j pr al f Hf IH]; intros c; cbn [run].
  - done.
  - apply IH.
  - specialize (IH (setHgvsStates (setEntry key st (hgvsStates c)) c)).
    destruct (run svc p _) as [c' evs]. cbn [fst] in *.
    rewrite IH. unfold setEntry. simpl. by rewrite lookup_insert_ne.
  - specialize (IH c). by destruct (run svc p c) as [c' evs].
  - specialize (IH c). by destruct (run svc p c) as [c' evs].
  - specialize (IH (getHgvsAlternatives svc t pos r a) c).
    by destruct (run svc _ c) as [c' evs].
  - specialize (IH (addJobHgvsAlternatives svc j pr al) c).
    by destruct (run svc _ c) as [c' evs].
Qed.

(** X19. The run of a fetch never leaves the entry of its key loading: a
    fetch that is not skipped ends with the entry in the error state or in
    the success state with the alternatives that the lookup delivered. *)
Theorem fetch_settles svc c v :
  ¬ fetchSkipped c v →
  ∃ e, hgvsStates (run svc (fetchHgvsAlternatives v) c).1 !! getHgvsKey v
       = Some e ∧
       loading e = false ∧
       (e = errorState ∨ ∃ alts, e = successState alts).
Proof.
  intros Hn. destruct (not_fetchSkipped c v Hn) as (primary & Hcur & Hcolon).
  destruct (run_issued_entry svc c v primary Hcur Hcolon)
    as (e & He & [->|(alts & _ & ->)]).
  - exists errorState. split_and!; [done | done | by left].
  - exists (successState alts). split_and!; [done | done |].
    right. by exists alts.
Qed.

Lemma fetch_settles_witness :
  ∃ e, hgvsStates
         (run saveFails (fetchHgvsAlternatives Samples.v300) jobView).1
         !! getHgvsKey Samples.v300 = Some e ∧
       loading e = false ∧
       (e = errorState ∨ ∃ alts, e = successState alts).
Proof.
  apply (fetch_settles saveFails jobView Samples.v300).
  intros [H|[H|(primary & Hp & Hc)]].
  - vm_compute in H. lia.
  - discriminate H.
  - injection Hp as <-. apply Hc.
    exists "NM_000546.6", "c.215C>G". reflexivity.
Defined.

(** X20. Alternatives fetched for one record serve every record with the
    same key: after a successful fetch that delivered at least one
    alternative, each record with the key of the fetched one resolves to
    the alternatives, and each record with another key resolves as
    before. *)
Theorem fetched_alternatives_shared svc c v (primary : string)
    (alts : list string) :
  getHgvs c v = [primary] → occurs ":" primary →
  getHgvsAlternatives svc (hd "" (JS.split ":" primary)) (v_position v)
    (v_ref v) (v_alt v) = Some alts →
  (JS.truthy (jobId c) = true →
   addJobHgvsAlternatives svc (default "" (jobId c)) primary alts = true) →
  alts ≠ [] →
  (∀ v2, getHgvsKey v2 = getHgvsKey v →
         getHgvs (run svc (fetchHgvsAlternatives v) c).1 v2 = alts) ∧
  (∀ v2, getHgvsKey v2 ≠ getHgvsKey v →
         getHgvs (run svc (fetchHgvsAlternatives v) c).1 v2 = getHgvs c v2).
Proof.
  intros Hcur Hcolon Hlookup Hsave Hne. split.
  - intros v2 Hk.
    rewrite (run_success svc c v primary alts) by done. cbn [fst].
    rewrite (getHgvs_cached _ v2 (successState alts)).
    + simpl. by destruct alts.
    + rewrite Hk. apply lookup_insert_eq.
  - intros v2 Hk. unfold getHgvs.
    by rewrite (run_other_keys svc _ c (getHgvsKey v) (getHgvsKey v2)
                  (fetch_onlySets v) Hk).
Qed.

Lemma fetched_alternatives_shared_witness :
  getHgvs
    (run saveFails (fetchHgvsAlternatives Samples.v300)
       (Samples.neutral [Samples.v300])).1 Samples.v300
  = ["ENST00000269305.9:c.215C>G"; "NM_000546.6:c.215C>G"].
Proof.
  apply (proj1 (fetched_alternatives_shared saveFails
                  (Samples.neutral [Samples.v300]) Samples.v300
                  "NM_000546.6:c.215C>G"
                  ["ENST00000269305.9:c.215C>G"; "NM_000546.6:c.215C>G"]
                  eq_refl
                  (ex_intro _ "NM_000546.6"
                     (ex_intro _ "c.215C>G" eq_refl))
                  eq_refl
                  (λ H, False_ind _ (Bool.diff_false_true H))
                  (λ H, List.nil_cons (eq_sym H)))).
  reflexivity.
Defined.

(** X21. The save-back and the seed use the same key. A fetch for a
    record whose [hgvs] field is not blank, issued while the cache holds
    no alternatives under the key of the record and a job id is present,
    calls the save-back exactly once when the lookup succeeds, with the
    job id, the key of the record ([getHgvsKey]) and the alternatives that
    the lookup delivered. A run of the effect on a component whose
    persisted alternatives hold a non-empty list under that key makes the
    record resolve to that list; in general a record resolves after the
    effect to the persisted alternatives of its key when these are not
    empty, and to its raw names otherwise. *)
Theorem save_key_and_seed svc c v (primary : string) (alts : list string) :
  blankHgvsString v = false →
  (∀ st, hgvsStates c !! getHgvsKey v = Some st → alternatives st = []) →
  getHgvs c v = [primary] → occurs ":" primary →
  getHgvsAlternatives svc (hd "" (JS.split ":" primary)) (v_position v)
    (v_ref v) (v_alt v) = Some alts →
  JS.truthy (jobId c) = true →
  List.filter isPersist (run svc (fetchHgvsAlternatives v) c).2
  = [EvPersist (default "" (jobId c)) (getHgvsKey v) alts] ∧
  (∀ c2, hgvsAlternatives c2 !! getHgvsKey v = Some alts → alts ≠ [] →
         getHgvs (effect_body c2) v = alts) ∧
  (∀ c2, getHgvs (effect_body c2) v
         = match hgvsAlternatives c2 !! getHgvsKey v with
           | Some (a :: l) => a :: l
           | _ => rawHgvs v
           end).
Proof.
  intros Hb Hc Hcur Hcolon Hlookup Hjob.
  assert (Hseed : ∀ c2, getHgvs (effect_body c2) v
                        = match hgvsAlternatives c2 !! getHgvsKey v with
                          | Some (a :: l) => a :: l
                          | _ => rawHgvs v
                          end).
  { intros c2. unfold getHgvs. rewrite effect_body_states, lookup_fmap.
    by destruct (hgvsAlternatives c2 !! getHgvsKey v) as [[|a l]|]. }
  split_and!.
  - assert (Hkey : getHgvsKey v = primary).
    { rewrite (getHgvsKey_raw v Hb), <- (getHgvs_raw c v Hc), Hcur. done. }
    unfold fetchHgvsAlternatives. cbn [run].
    rewrite (fetchFrom_issued c v primary) by done. cbn [run].
    rewrite Hlookup.
    cbn [afterLookup run setHgvsStates jobId hgvsStates]. rewrite Hjob.
    cbn [run]. rewrite Hkey.
    by destruct (addJobHgvsAlternatives svc _ _ _).
  - intros c2 Hstore Hne. rewrite Hseed, Hstore. by destruct alts.
  - exact Hseed.
Qed.

Lemma save_key_and_seed_witness :
  List.filter isPersist
    (run saveFails (fetchHgvsAlternatives Samples.v300) jobView).2
  = [EvPersist (default "" (jobId jobView)) (getHgvsKey Samples.v300)
       ["ENST00000269305.9:c.215C>G"; "NM_000546.6:c.215C>G"]].
Proof.
  refine (proj1 (save_key_and_seed saveFails jobView Samples.v300
                   "NM_000546.6:c.215C>G"
                   ["ENST00000269305.9:c.215C>G"; "NM_000546.6:c.215C>G"]
                   eq_refl _ eq_refl
                   (ex_intro _ "NM_000546.6"
                      (ex_intro _ "c.215C>G" eq_refl))
                   eq_refl eq_refl)).
  intros st H. discriminate H.
Defined.

End fetch_and_seed.

(** ** Counts when nothing is filtered *)

Section neutral_counts.

Local Open Scope nat_scope.
Implicit Types (c : Component) (o : Overrides) (k : string).

Lemma applyFilters_neutralState c o :
  neutralState c →
  o_type o = None ∨ o_type o = Some "All" →
  o_patient o = None ∨ o_patient o = Some "All" →
  o_quality o = None ∨ o_quality o = Some "All" →
  o_consequence o = None ∨ o_consequence o = Some "All" →
  applyFilters c o = variants c.
Proof.
  intros (Ht & Hp & Hq & Hc & Hs) Hot Hop Hoq Hoc.
  rewrite applyFilters_keeps.
  apply filter_true. intros v.
  unfold keeps, facetsKeep, qualityKeeps, typeKeeps, patientKeeps,
    consequenceKeeps, searchKeeps, effSearch, effType, effPatient,
    effQuality, effConsequence.
  rewrite trim_blank by (by rewrite blank_toLowerCase).
  destruct Hot as [-> | ->], Hop as [-> | ->], Hoq as [-> | ->],
    Hoc as [-> | ->]; simpl; by rewrite ?Ht, ?Hp, ?Hq, ?Hc.
Qed.

End neutral_counts.

(** X22. When nothing is selected and the search term is blank, the
    filtered list is the whole list, and the counter of each dimension has
    incremented every listed facet value other than 'All' some number [n]
    of times, at least one: a value that is no property name of
    [Object.prototype] has the number [n] as its count, so no such value
    shows without records; the name of an inherited function has a text
    as its entry, and [__proto__] has no entry. *)
Theorem neutral_counts_cover_values (c : Component) (k : string) :
  neutralState c → k ≠ "All" →
  filteredVariants c = variants c ∧
  (k ∈ availableTypes c →
   ∃ n, (1 ≤ n)%nat ∧ typeCounts c !! k = entryAfter k n ∧
        (prototypeKey k = false →
         typeCounts c !! k = Some (CountNumber n))) ∧
  (k ∈ availableQualities c →
   ∃ n, (1 ≤ n)%nat ∧ qualityCounts c !! k = entryAfter k n ∧
        (prototypeKey k = false →
         qualityCounts c !! k = Some (CountNumber n))) ∧
  (k ∈ availablePatients c →
   ∃ n, (1 ≤ n)%nat ∧ patientCounts c !! k = entryAfter k n ∧
        (prototypeKey k = false →
         patientCounts c !! k = Some (CountNumber n))) ∧
  (k ∈ availableConsequences c →
   ∃ n, (1 ≤ n)%nat ∧ consequenceCounts c !! k = entryAfter k n ∧
        (prototypeKey k = false →
         consequenceCounts c !! k = Some (CountNumber n))).
Proof.
  intros Hn Hk.
  rewrite typeCounts_countsOf, qualityCounts_countsOf, patientCounts_countsOf,
    consequenceCounts_countsOf.
  unfold filteredVariants, typeBase, qualityBase, patientBase,
    consequenceBase.
  rewrite !(applyFilters_neutralState c _ Hn) by (simpl; auto).
  split_and!; [done | | | |].
  - intros (v & Hv & <-)%elem_of_availableTypes.
    apply countsOf_elem_of; [done |]. apply elem_of_flat_map.
    exists v. split; [done |]. unfold typeKeys. constructor.
  - intros (v & Hv & Hf & Hne)%elem_of_availableQualities.
    apply countsOf_elem_of; [done |]. apply elem_of_flat_map.
    exists v. split; [done |]. unfold qualityKeys. rewrite Hf. simpl.
    rewrite (proj2 (String.eqb_neq _ _) Hne). simpl. constructor.
  - intros (v & Hv & Hinv)%elem_of_availablePatients.
    apply countsOf_elem_of; [done |]. apply elem_of_flat_map.
    exists v. split; [done |]. by apply elem_of_getInvolvedPatients.
  - intros (v & Hv & Hf & Hne)%elem_of_availableConsequences.
    apply countsOf_elem_of; [done |]. apply elem_of_flat_map.
    exists v. split; [done |]. unfold consequenceKeys. rewrite Hf. simpl.
    rewrite (proj2 (String.eqb_neq _ _) Hne). simpl. constructor.
Qed.

Lemma neutral_counts_cover_values_witness :
  filteredVariants (Samples.neutral [Samples.v100; Samples.v300])
  = variants (Samples.neutral [Samples.v100; Samples.v300]).
Proof.
  apply (neutral_counts_cover_values
           (Samples.neutral [Samples.v100; Samples.v300]) "P2").
  - by repeat split.
  - discriminate.
Defined.
